(** * Customer Feedback Keyword Analyzer ([newapp.py])

    A shallow embedding of the text pipeline of [newapp.py]: section
    extraction by regular expressions, keyword tokenisation, the batch
    processor [load_and_process], the frequency tables and the search
    filters, followed by the properties proved about them.

    Conventions of the model.
    - A Python [str] is a list of characters.  Characters are the code
      points U+0000..U+00FF, carried by [ascii]; on this range
      [str.isspace] and [str.lower] are exactly the functions [isspace]
      and [lower_char] below.
    - A cell of a pandas column read with [dtype=str] is either a string
      or NaN: [option str], with [None] for NaN.
    - [st.error] appends to a message log; a Python exception that is
      not caught ends the run: both are carried by the monad [App]. *)

From Stdlib Require Import Ascii String List Bool Arith Lia Permutation.
Import ListNotations.

(** ** Strings *)

Definition str := list ascii.

(** A Python string literal. *)
Definition py (s : string) : str := list_ascii_of_string s.

Definition str_eqb (a b : str) : bool :=
  if list_eq_dec ascii_dec a b then true else false.

(** [str.isspace] on one character of the range: TAB..CR, FS..US, space,
    NEL (U+0085) and NBSP (U+00A0). *)
Definition isspace (c : ascii) : bool :=
  let n := nat_of_ascii c in
  ((9 <=? n) && (n <=? 13)) || ((28 <=? n) && (n <=? 32))
  || (n =? 133) || (n =? 160).

(** [str.lstrip()], [str.rstrip()] and [str.strip()] without argument. *)
Fixpoint lstrip (s : str) : str :=
  match s with
  | [] => []
  | c :: s' => if isspace c then lstrip s' else s
  end.

Definition rstrip (s : str) : str := rev (lstrip (rev s)).

Definition strip (s : str) : str := rstrip (lstrip s).

(** Truth value of a string: [if kw.strip()] holds for a non-empty one. *)
Definition truthy (s : str) : bool :=
  match s with [] => false | _ :: _ => true end.

(** [str.lower()] on the range: A..Z and the Latin-1 capitals
    U+00C0..U+00DE except the multiplication sign U+00D7 move up by 32. *)
Definition lower_char (c : ascii) : ascii :=
  let n := nat_of_ascii c in
  if ((65 <=? n) && (n <=? 90))
     || ((192 <=? n) && (n <=? 222) && negb (n =? 215))
  then ascii_of_nat (n + 32) else c.

Definition lower (s : str) : str := map lower_char s.

(** [s.startswith(p)]. *)
Fixpoint startswith (p s : str) : bool :=
  match p, s with
  | [], _ => true
  | _ :: _, [] => false
  | a :: p', b :: s' => Ascii.eqb a b && startswith p' s'
  end.

(** What follows [p] when [s] starts with it. *)
Fixpoint strip_prefix (p s : str) : option str :=
  match p, s with
  | [], _ => Some s
  | _ :: _, [] => None
  | a :: p', b :: s' => if Ascii.eqb a b then strip_prefix p' s' else None
  end.

(** [sub in s]. *)
Fixpoint contains (sub s : str) : bool :=
  startswith sub s ||
  match s with
  | [] => false
  | _ :: s' => contains sub s'
  end.

(** [s.split(sep)] for a one-character separator: never the empty list. *)
Fixpoint split (sep : ascii) (s : str) : list str :=
  match s with
  | [] => [[]]
  | c :: s' =>
      if Ascii.eqb c sep then [] :: split sep s'
      else match split sep s' with
           | p :: ps => (c :: p) :: ps
           | [] => [[c]]
           end
  end.

(** [sep.join(parts)]. *)
Fixpoint join (sep : ascii) (parts : list str) : str :=
  match parts with
  | [] => []
  | [p] => p
  | p :: ps => p ++ sep :: join sep ps
  end.

(** [x in xs] for a list of strings. *)
Definition str_in (x : str) (xs : list str) : bool := existsb (str_eqb x) xs.

(** ** The regular expressions of [extract_sections]

    [re.search] of a pattern: label [L1], a lazy group of any characters,
    label [L2], under [re.DOTALL], with literal labels: the
    engine tries every start position from the left; at a position where
    [L1] matches, the lazy group grows one character at a time (any
    character, by [re.DOTALL]) until [L2] matches. *)

(** The lazy group followed by [L2], anchored at the start of [s]: the
    text of the group. *)
Fixpoint lazy_until (l2 s : str) : option str :=
  if startswith l2 s then Some []
  else match s with
       | [] => None
       | c :: s' => option_map (cons c) (lazy_until l2 s')
       end.

(** [re.search] of [L1], lazy group, [L2] in [s]: [group(1)] of the match. *)
Fixpoint search_between (l1 l2 s : str) : option str :=
  let next := match s with
              | [] => None
              | _ :: s' => search_between l1 l2 s'
              end in
  match strip_prefix l1 s with
  | Some rest => match lazy_until l2 rest with
                 | Some g => Some g
                 | None => next
                 end
  | None => next
  end.

(** [re.search] of [L] followed by a greedy group of any characters: the
    group runs from the leftmost [L] to the end of the text. *)
Fixpoint search_after (l s : str) : option str :=
  match strip_prefix l s with
  | Some rest => Some rest
  | None => match s with
            | [] => None
            | _ :: s' => search_after l s'
            end
  end.

Definition label_issue : str := py "<b>Customer Issue:</b>".
Definition label_actions : str := py "<b>Agent's Actions:</b>".
Definition label_anxiety : str := py "<b>Customer's Anxiety:</b>".
Definition label_keywords : str := py "<b>Important Keywords:</b>".

(** ** Exceptions, the message log and the application monad *)

Inductive exn :=
| TypeError   (* re.search on a value that is not a string *)
| re_error.   (* re.compile on a pattern that is not a regular expression *)

Inductive outcome (A : Type) :=
| Ret (a : A)
| Raise (e : exn).
Arguments Ret {A} a.
Arguments Raise {A} e.

Definition bind_outcome {A B} (m : outcome A) (k : A -> outcome B)
  : outcome B :=
  match m with
  | Ret a => k a
  | Raise e => Raise e
  end.

(** A computation of the application: it reads and extends the log of
    [st.error] messages and returns a value or raises. *)
Definition App (A : Type) := list str -> outcome A * list str.

Definition ret {A} (a : A) : App A := fun log => (Ret a, log).

Definition bind {A B} (m : App A) (k : A -> App B) : App B :=
  fun log =>
    match m log with
    | (Ret a, log') => k a log'
    | (Raise e, log') => (Raise e, log')
    end.

Definition st_error (msg : str) : App unit :=
  fun log => (Ret tt, log ++ [msg]).

Definition lift {A} (o : outcome A) : App A := fun log => (o, log).

Declare Scope app_scope.
Delimit Scope app_scope with app.
Notation "x <- m ;; k" := (bind m (fun x => k))
  (at level 61, m at next level, right associativity) : app_scope.
Notation "m ;; k" := (bind m (fun _ => k))
  (at level 61, right associativity) : app_scope.

Declare Scope outcome_scope.
Delimit Scope outcome_scope with outcome.
Notation "x <- m ;; k" := (bind_outcome m (fun x => k))
  (at level 61, m at next level, right associativity) : outcome_scope.

(** ** Section extraction *)

(** A cell of a column read by [pd.read_csv(..., dtype=str)]: a string,
    or NaN for an empty field (and for the default NA spellings). *)
Definition cell := option str.

(** [re.search(pattern, text, re.DOTALL)] accepts a string only. *)
Definition re_search (pattern : str -> option str) (text : cell)
  : outcome (option str) :=
  match text with
  | Some s => Ret (pattern s)
  | None => Raise TypeError
  end.

(** The [pd.Series] returned by [extract_sections]. *)
Record Sections := {
  Customer_Issue : str;
  Agents_Actions : str;
  Customers_Anxiety : str;
  Important_Keywords : str
}.

(** [m.group(1).strip() if m else ""]. *)
Definition group_or_empty (m : option str) : str :=
  match m with
  | Some g => strip g
  | None => []
  end.

Definition extract_sections (text : cell) : outcome Sections :=
  (issue <- re_search (search_between label_issue label_actions) text ;;
   actions <- re_search (search_between label_actions label_anxiety) text ;;
   anxiety <- re_search (search_between label_anxiety label_keywords) text ;;
   keywords <- re_search (search_after label_keywords) text ;;
   Ret {| Customer_Issue := group_or_empty issue;
          Agents_Actions := group_or_empty actions;
          Customers_Anxiety := group_or_empty anxiety;
          Important_Keywords := group_or_empty keywords |})%outcome.

(** ** Keyword tokenisation

    The comprehension of line 59:
    [[kw.strip() for kw in str(x).split('_') if kw.strip()]]; [x] is a
    string of the column [Important Keywords], so [str(x)] is [x]. *)
Fixpoint keep_stripped (pieces : list str) : list str :=
  match pieces with
  | [] => []
  | kw :: rest =>
      if truthy (strip kw) then strip kw :: keep_stripped rest
      else keep_stripped rest
  end.

Definition tokenize (x : str) : list str := keep_stripped (split "_" x).

(** ** The input table and the batch processor *)

(** The table returned by [read_large_csv]: column names and the rows,
    every row holding one cell per column. *)
Record DataFrame := {
  columns : list str;
  rows : list (list cell)
}.

(** [df.empty]: an axis of length zero. *)
Definition empty (df : DataFrame) : bool :=
  match columns df, rows df with
  | [], _ => true
  | _, [] => true
  | _, _ => false
  end.

Fixpoint index_of (col : str) (cols : list str) : option nat :=
  match cols with
  | [] => None
  | c :: cs => if str_eqb col c then Some 0 else option_map S (index_of col cs)
  end.

(** [df[col]] for a column that exists. *)
Definition column (df : DataFrame) (i : nat) : list cell :=
  map (fun r => nth i r None) (rows df).

(** What the reader makes of the uploaded file: [read_large_csv] raises
    an exception with a message, or returns the table. *)
Inductive upload :=
| Unreadable (e : str)
| Parsed (df : DataFrame).

(** A row of [df_cleaned]. *)
Record WorkingRow := {
  sections : Sections;
  Keyword_List : list str;
  ASP_slab : cell;
  analytic_business_unit : cell;
  vip_flag : cell;
  sub_sub_issue_type : cell
}.

(** [Series.apply(extract_sections)]: row by row, in order; the first
    exception ends it. *)
Fixpoint apply_extract (col : list cell) : outcome (list Sections) :=
  match col with
  | [] => Ret []
  | text :: rest =>
      (s <- extract_sections text ;;
       ss <- apply_extract rest ;;
       Ret (s :: ss))%outcome
  end.

(** [df[col] if col in df.columns else ""], read at one row. *)
Definition extra (df : DataFrame) (col : str) (r : list cell) : cell :=
  match index_of col (columns df) with
  | Some i => nth i r None
  | None => Some []
  end.

Definition working_row (df : DataFrame) (r : list cell) (s : Sections)
  : WorkingRow :=
  {| sections := s;
     Keyword_List := tokenize (Important_Keywords s);
     ASP_slab := extra df (py "ASP_slab") r;
     analytic_business_unit := extra df (py "analytic_business_unit") r;
     vip_flag := extra df (py "vip_flag") r;
     sub_sub_issue_type := extra df (py "sub_sub_issue_type") r |}.

(** Rows of [df] and rows of the extracted table share the index. *)
Fixpoint assemble (df : DataFrame) (rs : list (list cell))
  (ss : list Sections) : list WorkingRow :=
  match rs, ss with
  | r :: rs', s :: ss' => working_row df r s :: assemble df rs' ss'
  | _, _ => []
  end.

(** The first column whose lowercased name contains [thread_text], as a
    position. *)
Fixpoint text_column (cols : list str) : option nat :=
  match cols with
  | [] => None
  | col :: cs =>
      if contains (py "thread_text") (lower col) then Some 0
      else option_map S (text_column cs)
  end.

(** [load_and_process]; [pd.DataFrame()] is the table without rows. *)
Definition load_and_process (file : upload) : App (list WorkingRow) :=
  (match file with
   | Unreadable e =>
       st_error (py "Error reading CSV file: " ++ e) ;; ret []
   | Parsed df =>
       if empty df then
         st_error (py "The uploaded CSV file is empty.") ;; ret []
       else
         match text_column (columns df) with
         | None =>
             st_error (py "No column named 'thread_text' found.") ;; ret []
         | Some i =>
             ss <- lift (apply_extract (column df i)) ;;
             ret (assemble df (rows df) ss)
         end
   end)%app.

(** ** Aggregation *)

(** A Python [dict] from keyword to count, in insertion order. *)
Definition dict := list (str * nat).

Fixpoint dict_get (d : dict) (k : str) (default : nat) : nat :=
  match d with
  | [] => default
  | (k', v) :: d' => if str_eqb k k' then v else dict_get d' k default
  end.

Fixpoint dict_set (d : dict) (k : str) (v : nat) : dict :=
  match d with
  | [] => [(k, v)]
  | (k', v') :: d' =>
      if str_eqb k k' then (k', v) :: d' else (k', v') :: dict_set d' k v
  end.

(** [d[kw] = d.get(kw, 0) + 1]. *)
Definition bump (d : dict) (kw : str) : dict :=
  dict_set d kw (dict_get d kw 0 + 1).

Definition keyword_freq (df_cleaned : list WorkingRow) : dict :=
  fold_left (fun d row => fold_left bump (Keyword_List row) d) df_cleaned [].

(** [sorted(items, key=lambda x: x[1], reverse=True)]: by count,
    largest first, equal counts in their original order. *)
Fixpoint insert_desc (x : str * nat) (l : list (str * nat))
  : list (str * nat) :=
  match l with
  | [] => [x]
  | y :: l' => if snd x <? snd y then y :: insert_desc x l' else x :: l
  end.

Fixpoint sorted_desc (l : list (str * nat)) : list (str * nat) :=
  match l with
  | [] => []
  | x :: l' => insert_desc x (sorted_desc l')
  end.

Definition sorted_keywords (df_cleaned : list WorkingRow)
  : list (str * nat) :=
  sorted_desc (keyword_freq df_cleaned).

Definition keyword_options (df_cleaned : list WorkingRow) : list str :=
  map fst (sorted_keywords df_cleaned).

(** [Series.dropna()]. *)
Fixpoint dropna (col : list cell) : list str :=
  match col with
  | [] => []
  | Some s :: rest => s :: dropna rest
  | None :: rest => dropna rest
  end.

(** [Series.value_counts()]: one entry per distinct value, largest count
    first. *)
Definition value_counts (col : list str) : list (str * nat) :=
  sorted_desc (fold_left bump col []).

(** Lines 84-85: the column, without NaN and without blank values,
    counted. *)
Definition anxiety_counts (df_cleaned : list WorkingRow)
  : list (str * nat) :=
  let col := map (fun row => Some (Customers_Anxiety (sections row)))
                 df_cleaned in
  value_counts
    (filter (fun v => negb (str_eqb (strip v) [])) (dropna col)).

(** Lines 86-94: the counts followed by the row [Total]. *)
Definition anxiety_df_with_total (df_cleaned : list WorkingRow)
  : list (str * nat) :=
  let anxiety_df := anxiety_counts df_cleaned in
  anxiety_df ++ [(py "Total", list_sum (map snd anxiety_df))].

(** ** Queries *)

(** Line 140: the rows whose keyword list holds the selected keyword. *)
Definition filtered_df_dropdown (df_cleaned : list WorkingRow)
  (selected_keyword : str) : list WorkingRow :=
  filter (fun row => str_in selected_keyword (Keyword_List row)) df_cleaned.

(** Line 148:
    [[kw.strip().lower() for kw in search_input.split(',') if kw.strip()]]. *)
Fixpoint keep_stripped_lower (pieces : list str) : list str :=
  match pieces with
  | [] => []
  | kw :: rest =>
      if truthy (strip kw) then lower (strip kw) :: keep_stripped_lower rest
      else keep_stripped_lower rest
  end.

Definition search_keywords (search_input : str) : list str :=
  keep_stripped_lower (split "," search_input).

(** The test of lines 149-151:
    [any(kw in [k.lower() for k in kws] for kw in search_keywords)]. *)
Definition any_keyword (search_keywords kws : list str) : bool :=
  existsb (fun kw => str_in kw (map lower kws)) search_keywords.

(** Lines 147-151: without input there is no search. *)
Definition filtered_df_text (df_cleaned : list WorkingRow)
  (search_input : str) : option (list WorkingRow) :=
  if truthy search_input then
    Some (filter (fun row => any_keyword (search_keywords search_input)
                                         (Keyword_List row))
                 df_cleaned)
  else None.

(** *** [Series.str.contains(pat, case=False, na=False)]

    The call leaves [regex] at its default, [True]: pandas compiles
    [pat] with [re.compile(pat, re.IGNORECASE)] and keeps the rows where
    [search] finds a match.  The model covers the patterns written with
    literal characters, the dot and parentheses; a pattern using any
    other regular-expression operator is reported as [Beyond]. *)

Inductive re_item :=
| Lit (c : ascii)   (* one literal character *)
| Dot.              (* any character but the newline *)

Inductive compiled :=
| Compiled (items : list re_item)
| Invalid           (* re.compile raises re.error *)
| Beyond.           (* outside the patterns modelled *)

(** The operators that the model leaves out. *)
Definition beyond_char (c : ascii) : bool :=
  existsb (Ascii.eqb c) (py "^$*+?{}[]\|").

(** Groups only nest: the items in order, or [None] when a parenthesis
    is not matched. *)
Fixpoint parse_items (depth : nat) (pat : str) : option (list re_item) :=
  match pat with
  | [] => match depth with 0 => Some [] | S _ => None end
  | c :: rest =>
      if Ascii.eqb c "(" then parse_items (S depth) rest
      else if Ascii.eqb c ")" then
        match depth with
        | 0 => None
        | S d => parse_items d rest
        end
      else if Ascii.eqb c "." then option_map (cons Dot) (parse_items depth rest)
      else option_map (cons (Lit c)) (parse_items depth rest)
  end.

Definition re_compile (pat : str) : compiled :=
  if existsb beyond_char pat then Beyond
  else match parse_items 0 pat with
       | Some items => Compiled items
       | None => Invalid
       end.

(** One item against one character, ignoring case. *)
Definition item_matches (i : re_item) (d : ascii) : bool :=
  match i with
  | Lit c => Ascii.eqb (lower_char d) (lower_char c)
  | Dot => negb (Ascii.eqb d "010")
  end.

Fixpoint match_here (items : list re_item) (s : str) : bool :=
  match items, s with
  | [], _ => true
  | _ :: _, [] => false
  | i :: items', d :: s' => item_matches i d && match_here items' s'
  end.

(** [regex.search(s) is not None]. *)
Fixpoint found (items : list re_item) (s : str) : bool :=
  match_here items s ||
  match s with
  | [] => false
  | _ :: s' => found items s'
  end.

(** The boolean mask, [False] at NaN; [None] for a pattern [Beyond]. *)
Definition str_contains (col : list cell) (pat : str)
  : option (outcome (list bool)) :=
  match re_compile pat with
  | Beyond => None
  | Invalid => Some (Raise re_error)
  | Compiled items =>
      Some (Ret (map (fun c => match c with
                               | Some s => found items s
                               | None => false
                               end) col))
  end.

(** [df_cleaned[mask]]. *)
Fixpoint select (df_cleaned : list WorkingRow) (mask : list bool)
  : list WorkingRow :=
  match df_cleaned, mask with
  | row :: df', b :: mask' =>
      if b then row :: select df' mask' else select df' mask'
  | _, _ => []
  end.

(** What a search box gives: nothing without input, the rows selected or
    the exception raised, or no answer of the model for a pattern
    [Beyond]. *)
Inductive text_search :=
| NotAsked
| Unmodelled
| Result (o : outcome (list WorkingRow)).

(** [if text_input: df_cleaned[df_cleaned[field].str.contains(...)]]. *)
Definition filter_contains (field : Sections -> str)
  (df_cleaned : list WorkingRow) (text_input : str) : text_search :=
  if truthy text_input then
    match str_contains
            (map (fun row => Some (field (sections row))) df_cleaned)
            text_input with
    | None => Unmodelled
    | Some o =>
        Result (mask <- o ;; Ret (select df_cleaned mask))%outcome
    end
  else NotAsked.

(** Lines 158-159. *)
Definition filtered_issue_df (df_cleaned : list WorkingRow)
  (issue_input : str) : text_search :=
  filter_contains Customer_Issue df_cleaned issue_input.

(** Lines 165-166. *)
Definition filtered_action_df (df_cleaned : list WorkingRow)
  (action_input : str) : text_search :=
  filter_contains Agents_Actions df_cleaned action_input.

(** ** The page *)

(** What the main logic shows for a table that is not empty. *)
Record Page := {
  shown_keywords : list (str * nat);
  shown_anxiety : list (str * nat);
  shown_rows : list WorkingRow
}.

(** Lines 70-73: nothing is shown without a file or for an empty table. *)
Definition main (uploaded_file : option upload) : App (option Page) :=
  (match uploaded_file with
   | None => ret None
   | Some file =>
       df_cleaned <- load_and_process file ;;
       match df_cleaned with
       | [] => ret None
       | _ :: _ =>
           ret (Some {| shown_keywords := sorted_keywords df_cleaned;
                        shown_anxiety := anxiety_df_with_total df_cleaned;
                        shown_rows := df_cleaned |})
       end
   end)%app.

(** ** The tables of the page *)

(** [DataFrame.head(n)] for a count [n]. *)
Definition head {A : Type} (n : nat) (l : list A) : list A := firstn n l.

(** [Series.fillna("").astype(str)]: NaN becomes the empty string. *)
Definition fillna_empty (col : list cell) : list str :=
  map (fun c => match c with Some s => s | None => [] end) col.

(** Lines 102-121: the distribution of one pass-through column,
    [df_cleaned[col].fillna("").astype(str).value_counts().reset_index()],
    of which the page shows [head(20)]. *)
Definition distribution (col : WorkingRow -> cell)
  (df_cleaned : list WorkingRow) : list (str * nat) :=
  value_counts (fillna_empty (map col df_cleaned)).

Definition asp_counts := distribution ASP_slab.
Definition vip_counts := distribution vip_flag.
Definition abu_counts := distribution analytic_business_unit.
Definition sub_issue_counts := distribution sub_sub_issue_type.

(** [range(start, stop, step)] for a positive [step]: [fuel] bounds the
    number of elements, and [stop] of them are enough. *)
Fixpoint range_from (fuel start stop step : nat) : list nat :=
  match fuel with
  | 0 => []
  | S fuel' =>
      if start <? stop then start :: range_from fuel' (start + step) stop step
      else []
  end.

Definition range (start stop step : nat) : list nat :=
  range_from stop start stop step.

(** Lines 130-133: the table of keywords and the choices of the box
    [top_n], [[i for i in range(10, max_keywords + 1, 10)]]. *)
Definition top_keywords_df (df_cleaned : list WorkingRow)
  : list (str * nat) :=
  sorted_keywords df_cleaned.

Definition step_options (df_cleaned : list WorkingRow) : list nat :=
  let max_keywords := Nat.min (length (top_keywords_df df_cleaned)) 200 in
  range 10 (max_keywords + 1) 10.

(** ** Notions used in the statements *)

(** The number of positions of [s] at which [l] starts. *)
Fixpoint count (l s : str) : nat :=
  (if startswith l s then 1 else 0) +
  match s with
  | [] => 0
  | _ :: s' => count l s'
  end.

Definition labels : list str :=
  [label_issue; label_actions; label_anxiety; label_keywords].

(** The expected shape of a cell, cut after the last field of [fs]:
    the text before the first label, then label and field in turn. *)
Fixpoint layout_from (ls fs : list str) : str :=
  match ls, fs with
  | l :: ls', f :: fs' => l ++ f ++ layout_from ls' fs'
  | _, _ => []
  end.

Definition layout (pre : str) (fs : list str) : str :=
  pre ++ layout_from labels fs.

(** The fields of the result by position. *)
Definition field (i : nat) (s : Sections) : str :=
  match i with
  | 0 => Customer_Issue s
  | 1 => Agents_Actions s
  | 2 => Customers_Anxiety s
  | _ => Important_Keywords s
  end.

(** The reading of the trailing-label property under which a present
    label always yields its field: with the first [length fs] labels
    once each and in order and the other labels absent, field [i] is the
    stripped text that follows label [i] when that label is present and
    empty otherwise. *)
Definition trailing_labels_as_stated (pre : str) (fs : list str) : Prop :=
  length fs < 4 ->
  (forall j, j < length fs -> count (nth j labels []) (layout pre fs) = 1) ->
  (forall j, length fs <= j < 4 ->
     count (nth j labels []) (layout pre fs) = 0) ->
  exists s,
    extract_sections (Some (layout pre fs)) = Ret s /\
    forall i, i < 4 ->
      field i s = if i <? length fs then strip (nth i fs []) else [].

(** The tokeniser in the words of its contract: split on the underscore,
    strip every piece, discard the pieces left empty. *)
Definition split_trim_discard (raw : str) : list str :=
  filter truthy (map strip (split "_" raw)).

(** A keyword as the pipeline leaves it: not empty, no white space at
    either end, no underscore. *)
Definition clean_keyword (kw : str) : Prop :=
  kw <> [] /\
  isspace (hd " "%char kw) = false /\
  isspace (last kw " "%char) = false /\
  ~ In "_"%char kw.

Definition str_dec : forall a b : str, {a = b} + {a <> b} :=
  list_eq_dec ascii_dec.

(** The counts are listed largest first. *)
Inductive descending : list (str * nat) -> Prop :=
| descending_nil : descending []
| descending_cons x l :
    (forall y, In y l -> snd y <= snd x) -> descending l ->
    descending (x :: l).

(** Empty or made of white space only. *)
Definition blank (s : str) : bool := forallb isspace s.

(** The files that the reader or the column search turns down. *)
Definition rejected (file : upload) : Prop :=
  match file with
  | Unreadable _ => True
  | Parsed df => rows df = [] \/ text_column (columns df) = None
  end.

(** The capital letters of the range, by code point. *)
Definition capital (n : nat) : Prop :=
  65 <= n <= 90 \/ (192 <= n <= 222 /\ n <> 215).

(** Two characters that are equal or a capital and its small letter. *)
Definition same_letter (c d : ascii) : Prop :=
  let n := nat_of_ascii c in
  let m := nat_of_ascii d in
  n = m \/ (capital n /\ m = n + 32) \/ (capital m /\ n = m + 32).

(** Two strings equal up to the case of their letters. *)
Definition same_ignoring_case (a b : str) : Prop := Forall2 same_letter a b.

(** A keyword as it is typed between two commas of the search box:
    without comma, not empty, without white space around it. *)
Definition typed_keyword (kw : str) : Prop :=
  ~ In ","%char kw /\ kw <> [] /\ strip kw = kw.

(** The characters with a meaning of their own in a pattern. *)
Definition re_special (c : ascii) : bool :=
  existsb (Ascii.eqb c) (py ".^$*+?{}[]\|()").

(** A search text free of them. *)
Definition plain (pat : str) : bool :=
  forallb (fun c => negb (re_special c)) pat.

(** A row with the given text fields and nothing else. *)
Definition row_of (issue actions : str) : WorkingRow :=
  working_row {| columns := []; rows := [] |} []
    {| Customer_Issue := issue; Agents_Actions := actions;
       Customers_Anxiety := []; Important_Keywords := [] |}.

(** * Properties *)

(** ** Prefixes and occurrences *)

Lemma startswith_app (l r : str) : startswith l (l ++ r) = true.
Proof.
  induction l as [|a l IH]; simpl; [reflexivity|].
  now rewrite Ascii.eqb_refl, IH.
Qed.

Lemma startswith_inv (l s : str) :
  startswith l s = true -> exists r, s = l ++ r.
Proof.
  revert s; induction l as [|a l IH]; intros s H.
  - now exists s.
  - destruct s as [|b s]; simpl in H; [discriminate|].
    apply andb_true_iff in H as [Hab Hl].
    apply Ascii.eqb_eq in Hab; subst b.
    destruct (IH _ Hl) as [r ->]. now exists r.
Qed.

Lemma startswith_weaken (l s t : str) :
  startswith l s = true -> startswith l (s ++ t) = true.
Proof.
  intros H. destruct (startswith_inv _ _ H) as [r ->].
  rewrite <- app_assoc. apply startswith_app.
Qed.

Lemma strip_prefix_app (l r : str) : strip_prefix l (l ++ r) = Some r.
Proof.
  induction l as [|a l IH]; simpl; [reflexivity|].
  now rewrite Ascii.eqb_refl.
Qed.

Lemma strip_prefix_Some (l s r : str) :
  strip_prefix l s = Some r -> s = l ++ r.
Proof.
  revert s; induction l as [|a l IH]; intros s H; simpl in H.
  - now injection H as ->.
  - destruct s as [|b s]; [discriminate|].
    destruct (Ascii.eqb a b) eqn:E; [|discriminate].
    apply Ascii.eqb_eq in E; subst b. simpl. f_equal. now apply IH.
Qed.

Lemma strip_prefix_None (l s : str) :
  startswith l s = false -> strip_prefix l s = None.
Proof.
  destruct (strip_prefix l s) as [r|] eqn:E; [|reflexivity].
  apply strip_prefix_Some in E; subst s.
  now rewrite startswith_app.
Qed.

Lemma count_suffix (l a s : str) : count l s <= count l (a ++ s).
Proof.
  induction a as [|c a IH]; simpl; lia.
Qed.

Lemma count_startswith (l s : str) :
  startswith l s = true -> 1 <= count l s.
Proof.
  intros H. destruct s; simpl in *; rewrite H; lia.
Qed.

Lemma count_app (l x y : str) :
  l <> [] -> count l x + count l y <= count l (x ++ y).
Proof.
  intros Hl. induction x as [|c x IH].
  - destruct l; [congruence|]. simpl. lia.
  - change ((c :: x) ++ y) with (c :: (x ++ y)).
    cbn [count].
    destruct (startswith l (c :: x)) eqn:E.
    + apply startswith_weaken with (t := y) in E.
      change ((c :: x) ++ y) with (c :: (x ++ y)) in E. rewrite E. lia.
    + destruct (startswith l (c :: x ++ y)); lia.
Qed.

Lemma count_zero_startswith (l a s : str) :
  count l (a ++ s) = 0 -> startswith l s = false.
Proof.
  intros H. destruct (startswith l s) eqn:E; [|reflexivity].
  pose proof (count_startswith _ _ E). pose proof (count_suffix l a s). lia.
Qed.

(** With one occurrence of [l] in all, no other starts before the one
    that follows [a]. *)
Lemma count_one_earlier (l a1 a2 r : str) :
  count l (a1 ++ a2 ++ l ++ r) = 1 -> a2 <> [] ->
  startswith l (a2 ++ l ++ r) = false.
Proof.
  intros H Ha2. destruct (startswith l (a2 ++ l ++ r)) eqn:E; [|reflexivity].
  exfalso. destruct a2 as [|c a2]; [congruence|].
  pose proof (count_suffix l a1 ((c :: a2) ++ l ++ r)) as H1.
  change ((c :: a2) ++ l ++ r) with (c :: (a2 ++ l ++ r)) in *.
  cbn [count] in H1. rewrite E in H1.
  pose proof (count_suffix l a2 (l ++ r)) as H2.
  pose proof (count_startswith _ _ (startswith_app l r)). lia.
Qed.

(** ** The regular expressions *)

Lemma lazy_until_first (l2 g b : str) :
  (forall g1 g2, g = g1 ++ g2 -> g2 <> [] ->
     startswith l2 (g2 ++ l2 ++ b) = false) ->
  lazy_until l2 (g ++ l2 ++ b) = Some g.
Proof.
  induction g as [|c g IH]; intros H.
  - simpl app. destruct (l2 ++ b) eqn:E; simpl;
      rewrite <- ?E, startswith_app; reflexivity.
  - change ((c :: g) ++ l2 ++ b) with (c :: (g ++ l2 ++ b)).
    cbn [lazy_until].
    assert (E : startswith l2 (c :: g ++ l2 ++ b) = false)
      by (apply (H [] (c :: g)); [reflexivity|discriminate]).
    rewrite E, IH; [reflexivity|].
    intros g1 g2 -> Hg2. now apply (H (c :: g1) g2).
Qed.

Lemma lazy_until_absent (l2 s : str) :
  count l2 s = 0 -> lazy_until l2 s = None.
Proof.
  induction s as [|c s IH]; intros H.
  - simpl in *. destruct (startswith l2 []); [discriminate|reflexivity].
  - cbn [count] in H. cbn [lazy_until].
    destruct (startswith l2 (c :: s)); [discriminate|].
    rewrite IH by lia. reflexivity.
Qed.

Lemma search_between_no_close (l1 l2 s : str) :
  count l2 s = 0 -> search_between l1 l2 s = None.
Proof.
  induction s as [|c s IH]; intros H.
  - cbn [search_between]. destruct (strip_prefix l1 []) as [rest|] eqn:E;
      [|reflexivity].
    apply strip_prefix_Some in E.
    rewrite lazy_until_absent; [reflexivity|].
    pose proof (count_suffix l2 l1 rest). rewrite <- E in *. lia.
  - cbn [search_between].
    assert (Hs : count l2 s = 0) by (cbn [count] in H; lia).
    rewrite (IH Hs).
    destruct (strip_prefix l1 (c :: s)) as [rest|] eqn:E; [|reflexivity].
    apply strip_prefix_Some in E.
    rewrite lazy_until_absent; [reflexivity|].
    pose proof (count_suffix l2 l1 rest). rewrite <- E in *. lia.
Qed.

Lemma search_between_no_open (l1 l2 s : str) :
  count l1 s = 0 -> search_between l1 l2 s = None.
Proof.
  induction s as [|c s IH]; intros H; cbn [search_between].
  - rewrite strip_prefix_None; [reflexivity|].
    simpl in H. destruct (startswith l1 []); [discriminate|reflexivity].
  - cbn [count] in H.
    rewrite strip_prefix_None, IH; try reflexivity; try lia.
    destruct (startswith l1 (c :: s)); [discriminate|reflexivity].
Qed.

Lemma search_after_absent (l s : str) :
  count l s = 0 -> search_after l s = None.
Proof.
  induction s as [|c s IH]; intros H; cbn [search_after].
  - rewrite strip_prefix_None; [reflexivity|].
    simpl in H. destruct (startswith l []); [discriminate|reflexivity].
  - cbn [count] in H.
    rewrite strip_prefix_None, IH; try reflexivity; try lia.
    destruct (startswith l (c :: s)); [discriminate|reflexivity].
Qed.

Lemma search_between_first (l1 l2 a g b : str) :
  (forall a1 a2, a = a1 ++ a2 -> a2 <> [] ->
     startswith l1 (a2 ++ l1 ++ g ++ l2 ++ b) = false) ->
  (forall g1 g2, g = g1 ++ g2 -> g2 <> [] ->
     startswith l2 (g2 ++ l2 ++ b) = false) ->
  search_between l1 l2 (a ++ l1 ++ g ++ l2 ++ b) = Some g.
Proof.
  intros Ha Hg. induction a as [|c a IH].
  - simpl app.
    assert (E : strip_prefix l1 (l1 ++ g ++ l2 ++ b) = Some (g ++ l2 ++ b))
      by apply strip_prefix_app.
    destruct (l1 ++ g ++ l2 ++ b); cbn [search_between];
      rewrite E, lazy_until_first by assumption; reflexivity.
  - change ((c :: a) ++ l1 ++ g ++ l2 ++ b)
      with (c :: (a ++ l1 ++ g ++ l2 ++ b)).
    cbn [search_between].
    rewrite strip_prefix_None.
    + apply IH. intros a1 a2 -> Ha2. now apply (Ha (c :: a1) a2).
    + now apply (Ha [] (c :: a)).
Qed.

Lemma search_after_first (l a r : str) :
  (forall a1 a2, a = a1 ++ a2 -> a2 <> [] ->
     startswith l (a2 ++ l ++ r) = false) ->
  search_after l (a ++ l ++ r) = Some r.
Proof.
  intros Ha. induction a as [|c a IH].
  - simpl app. pose proof (strip_prefix_app l r) as E.
    destruct (l ++ r); cbn [search_after]; rewrite E; reflexivity.
  - change ((c :: a) ++ l ++ r) with (c :: (a ++ l ++ r)).
    cbn [search_after].
    rewrite strip_prefix_None.
    + apply IH. intros a1 a2 -> Ha2. now apply (Ha (c :: a1) a2).
    + now apply (Ha [] (c :: a)).
Qed.

(** With each label once in the text, the search finds the text between
    them. *)
Lemma search_between_once (l1 l2 a g b : str) :
  count l1 (a ++ l1 ++ g ++ l2 ++ b) = 1 ->
  count l2 (a ++ l1 ++ g ++ l2 ++ b) = 1 ->
  search_between l1 l2 (a ++ l1 ++ g ++ l2 ++ b) = Some g.
Proof.
  intros H1 H2. apply search_between_first.
  - intros a1 a2 -> Ha2. rewrite <- app_assoc in H1.
    now apply (count_one_earlier _ _ _ _ H1).
  - intros g1 g2 -> Hg2.
    replace (a ++ l1 ++ (g1 ++ g2) ++ l2 ++ b)
      with ((a ++ l1 ++ g1) ++ g2 ++ l2 ++ b) in H2
      by (rewrite <- !app_assoc; reflexivity).
    now apply (count_one_earlier _ _ _ _ H2).
Qed.

Lemma search_after_once (l a r : str) :
  count l (a ++ l ++ r) = 1 -> search_after l (a ++ l ++ r) = Some r.
Proof.
  intros H. apply search_after_first.
  intros a1 a2 -> Ha2. rewrite <- app_assoc in H.
  now apply (count_one_earlier _ _ _ _ H).
Qed.

(** ** Stripping *)

Lemma lstrip_suffix (s : str) : exists x, s = x ++ lstrip s.
Proof.
  induction s as [|c s [x IH]]; [now exists []|].
  simpl. destruct (isspace c).
  - exists (c :: x). simpl. now f_equal.
  - now exists [].
Qed.

Lemma rstrip_prefix (s : str) : exists y, s = rstrip s ++ y.
Proof.
  unfold rstrip. destruct (lstrip_suffix (rev s)) as [x E].
  exists (rev x). rewrite <- rev_app_distr, <- E. now rewrite rev_involutive.
Qed.

Lemma strip_infix (s : str) : exists x y, s = x ++ strip s ++ y.
Proof.
  destruct (lstrip_suffix s) as [x E].
  destruct (rstrip_prefix (lstrip s)) as [y E'].
  exists x, y. unfold strip. now rewrite <- E', <- E.
Qed.

Lemma count_infix (l x m y : str) :
  l <> [] -> count l m <= count l (x ++ m ++ y).
Proof.
  intros Hl. pose proof (count_app l m y Hl).
  pose proof (count_suffix l x (m ++ y)). lia.
Qed.

Lemma count_strip (l s : str) : l <> [] -> count l (strip s) <= count l s.
Proof.
  intros Hl. destruct (strip_infix s) as (x & y & E).
  rewrite E at 2. now apply count_infix.
Qed.

Lemma count_concat (l : str) (ps : list str) :
  l <> [] -> list_sum (map (count l) ps) <= count l (concat ps).
Proof.
  intros Hl. induction ps as [|p ps IH]; simpl.
  - destruct l; [congruence|]. simpl. lia.
  - pose proof (count_app l p (concat ps) Hl). lia.
Qed.

Lemma count_self (l : str) : 1 <= count l l.
Proof.
  apply count_startswith. rewrite <- (app_nil_r l) at 2.
  apply startswith_app.
Qed.

Lemma contains_count (l s : str) : count l s = 0 -> contains l s = false.
Proof.
  induction s as [|c s IH]; cbn [count contains]; intros H.
  - destruct (startswith l []); [discriminate|reflexivity].
  - destruct (startswith l (c :: s)); [discriminate|].
    simpl. apply IH. lia.
Qed.

Lemma labels_nonempty (l : str) : In l labels -> l <> [].
Proof.
  intros [<-|[<-|[<-|[<-|[]]]]]; discriminate.
Qed.

Lemma extract_sections_text (text : str) :
  extract_sections (Some text) =
  Ret {| Customer_Issue :=
           group_or_empty (search_between label_issue label_actions text);
         Agents_Actions :=
           group_or_empty (search_between label_actions label_anxiety text);
         Customers_Anxiety :=
           group_or_empty (search_between label_anxiety label_keywords text);
         Important_Keywords :=
           group_or_empty (search_after label_keywords text) |}.
Proof. reflexivity. Qed.

(** A label that occurs once in a text made of pieces occurs in none of
    the other pieces. *)
Lemma count_piece (l : str) (ps : list str) (f : str) :
  l <> [] -> count l (concat ps) = 1 ->
  1 + count l f <= list_sum (map (count l) ps) -> count l f = 0.
Proof.
  intros Hl H1 H2. pose proof (count_concat l ps Hl). lia.
Qed.

(** ** Section extraction on well-formed text *)

(** C4. For a text in which the four labels occur once each, in their
    order, [extract_sections] returns for the first three fields the
    text between the label and the next label, stripped, and for the
    fourth the text after its label, stripped; no label occurs in a
    field of the result. *)
Theorem extract_sections_well_formed (pre f1 f2 f3 f4 : str) :
  let text := pre ++ label_issue ++ f1 ++ label_actions ++ f2
                  ++ label_anxiety ++ f3 ++ label_keywords ++ f4 in
  (forall l, In l labels -> count l text = 1) ->
  exists s,
    extract_sections (Some text) = Ret s /\
    Customer_Issue s = strip f1 /\
    Agents_Actions s = strip f2 /\
    Customers_Anxiety s = strip f3 /\
    Important_Keywords s = strip f4 /\
    forall l i, In l labels -> contains l (field i s) = false.
Proof.
  intros text H.
  assert (H1 : count label_issue text = 1) by (apply H; simpl; auto).
  assert (H2 : count label_actions text = 1) by (apply H; simpl; auto).
  assert (H3 : count label_anxiety text = 1) by (apply H; simpl; auto).
  assert (H4 : count label_keywords text = 1) by (apply H; simpl; auto 6).
  assert (Ei : search_between label_issue label_actions text = Some f1)
    by (apply search_between_once; assumption).
  assert (Ea : search_between label_actions label_anxiety text = Some f2).
  { unfold text in *.
    replace (pre ++ label_issue ++ f1 ++ label_actions ++ f2
               ++ label_anxiety ++ f3 ++ label_keywords ++ f4)
      with ((pre ++ label_issue ++ f1) ++ label_actions ++ f2
               ++ label_anxiety ++ f3 ++ label_keywords ++ f4) in *
      by (rewrite <- !app_assoc; reflexivity).
    apply search_between_once; assumption. }
  assert (Ex : search_between label_anxiety label_keywords text = Some f3).
  { unfold text in *.
    replace (pre ++ label_issue ++ f1 ++ label_actions ++ f2
               ++ label_anxiety ++ f3 ++ label_keywords ++ f4)
      with ((pre ++ label_issue ++ f1 ++ label_actions ++ f2)
               ++ label_anxiety ++ f3 ++ label_keywords ++ f4) in *
      by (rewrite <- !app_assoc; reflexivity).
    apply search_between_once; assumption. }
  assert (Ek : search_after label_keywords text = Some f4).
  { unfold text in *.
    replace (pre ++ label_issue ++ f1 ++ label_actions ++ f2
               ++ label_anxiety ++ f3 ++ label_keywords ++ f4)
      with ((pre ++ label_issue ++ f1 ++ label_actions ++ f2
               ++ label_anxiety ++ f3) ++ label_keywords ++ f4) in *
      by (rewrite <- !app_assoc; reflexivity).
    apply search_after_once; assumption. }
  eexists. split; [apply extract_sections_text|].
  cbn [Customer_Issue Agents_Actions Customers_Anxiety Important_Keywords].
  rewrite Ei, Ea, Ex, Ek. cbn [group_or_empty].
  repeat (split; [reflexivity|]).
  intros l i Hl. apply contains_count.
  pose proof (labels_nonempty l Hl) as Hne.
  assert (Et : text = List.concat [pre; label_issue; f1; label_actions; f2;
                                   label_anxiety; f3; label_keywords; f4])
    by (unfold text; cbn [List.concat]; rewrite app_nil_r; reflexivity).
  pose proof (H l Hl) as Hc. rewrite Et in Hc.
  assert (Hf : forall f, In f [f1; f2; f3; f4] -> count l (strip f) = 0).
  { intros f Hf. pose proof (count_strip l f Hne) as Hs.
    enough (count l f = 0) by lia.
    apply (count_piece l _ f Hne Hc).
    cbn [map list_sum fold_right].
    pose proof (count_self l) as Hself.
    destruct Hl as [<-|[<-|[<-|[<-|[]]]]];
      destruct Hf as [<-|[<-|[<-|[<-|[]]]]]; lia. }
  destruct i as [|[|[|i]]]; cbn [field Customer_Issue Agents_Actions
    Customers_Anxiety Important_Keywords]; apply Hf; simpl; auto.
Qed.

Lemma extract_sections_well_formed_witness :
  exists s,
    extract_sections
      (Some ([] ++ label_issue ++ py " card declined "
                ++ label_actions ++ py " refunded amount "
                ++ label_anxiety ++ py " high "
                ++ label_keywords ++ py " refund_card_decline")) = Ret s /\
    Customer_Issue s = strip (py " card declined ") /\
    Agents_Actions s = strip (py " refunded amount ") /\
    Customers_Anxiety s = strip (py " high ") /\
    Important_Keywords s = strip (py " refund_card_decline") /\
    forall l i, In l labels -> contains l (field i s) = false.
Proof.
  apply (extract_sections_well_formed [] (py " card declined ")
           (py " refunded amount ") (py " high ")
           (py " refund_card_decline")).
  intros l [<-|[<-|[<-|[<-|[]]]]]; vm_compute; reflexivity.
Defined.

(** ** Section extraction on text without its trailing labels *)

(** C1, as stated, fails: with the fourth label missing the third field
    is empty although its label is present and followed by [high]. *)
Lemma trailing_labels_counterexample :
  layout [] [py " late "; py " called "; py " high"] =
    py "<b>Customer Issue:</b> late <b>Agent's Actions:</b> called <b>Customer's Anxiety:</b> high"
  /\ ~ trailing_labels_as_stated [] [py " late "; py " called "; py " high"].
Proof.
  split; [reflexivity|].
  intros H. destruct H as (s & Hs & Hf).
  - simpl; lia.
  - intros [|[|[|j]]] Hj; [vm_compute; reflexivity ..|simpl in Hj; lia].
  - intros [|[|[|[|j]]]] Hj; simpl in Hj; try lia. vm_compute; reflexivity.
  - specialize (Hf 2 ltac:(lia)).
    vm_compute in Hs. injection Hs as <-. vm_compute in Hf. discriminate.
Qed.

(** C1, amended. With the first [length fs] labels once each and in
    order and the other labels absent, every field whose label is absent
    is empty, the field of the last present label is empty as well (the
    label that would close it is missing), and every field before it is
    the stripped text between its label and the next. *)
Theorem extract_sections_trailing_missing (pre : str) (fs : list str) :
  length fs < 4 ->
  (forall j, j < length fs -> count (nth j labels []) (layout pre fs) = 1) ->
  (forall j, length fs <= j < 4 ->
     count (nth j labels []) (layout pre fs) = 0) ->
  exists s,
    extract_sections (Some (layout pre fs)) = Ret s /\
    forall i, i < 4 ->
      field i s = if S i <? length fs then strip (nth i fs []) else [].
Proof.
  intros Hlen Hin Hout.
  eexists. split; [apply extract_sections_text|].
  assert (K : count label_keywords (layout pre fs) = 0)
    by (apply (Hout 3); lia).
  rewrite (search_after_absent _ _ K).
  rewrite (search_between_no_close label_anxiety _ _ K).
  destruct fs as [|f1 [|f2 [|f3 [|f4 fs]]]]; cbn [length] in *; try lia.
  - (* no label at all *)
    rewrite (search_between_no_open label_issue label_actions),
            (search_between_no_open label_actions label_anxiety)
      by (first [apply (Hout 0) | apply (Hout 1)]; lia).
    intros [|[|[|i]]] Hi; reflexivity.
  - (* the first label only *)
    rewrite (search_between_no_close label_issue label_actions),
            (search_between_no_open label_actions label_anxiety)
      by (apply (Hout 1); lia).
    intros [|[|[|i]]] Hi; reflexivity.
  - (* the first two labels *)
    rewrite (search_between_no_close label_actions label_anxiety)
      by (apply (Hout 2); lia).
    pose proof (Hin 0 ltac:(lia)) as H0. pose proof (Hin 1 ltac:(lia)) as H1.
    unfold layout in *. cbn [labels layout_from nth] in *.
    rewrite (search_between_once _ _ _ _ _ H0 H1).
    intros [|[|[|i]]] Hi; reflexivity.
  - (* the first three labels *)
    pose proof (Hin 0 ltac:(lia)) as H0. pose proof (Hin 1 ltac:(lia)) as H1.
    pose proof (Hin 2 ltac:(lia)) as H2.
    unfold layout in *. cbn [labels layout_from nth] in *.
    rewrite (search_between_once _ _ _ _ _ H0 H1).
    replace (pre ++ label_issue ++ f1 ++ label_actions ++ f2
               ++ label_anxiety ++ f3 ++ [])
      with ((pre ++ label_issue ++ f1) ++ label_actions ++ f2
               ++ label_anxiety ++ f3 ++ []) in *
      by (rewrite <- !app_assoc; reflexivity).
    rewrite (search_between_once _ _ _ _ _ H1 H2).
    intros [|[|[|i]]] Hi; reflexivity.
Qed.

Lemma extract_sections_trailing_missing_witness :
  exists s,
    extract_sections
      (Some (layout [] [py " late "; py " called "; py " high"])) = Ret s /\
    forall i, i < 4 ->
      field i s =
      if S i <? length [py " late "; py " called "; py " high"]
      then strip (nth i [py " late "; py " called "; py " high"] [])
      else [].
Proof.
  apply (extract_sections_trailing_missing []
           [py " late "; py " called "; py " high"]).
  - simpl; lia.
  - intros [|[|[|j]]] Hj; [vm_compute; reflexivity ..|simpl in Hj; lia].
  - intros [|[|[|[|j]]]] Hj; simpl in Hj; try lia. vm_compute; reflexivity.
Defined.

(** ** Tokenisation *)

Lemma str_eqb_eq (a b : str) : str_eqb a b = true <-> a = b.
Proof.
  unfold str_eqb. destruct (list_eq_dec ascii_dec a b); split; congruence.
Qed.

Lemma str_eqb_refl (a : str) : str_eqb a a = true.
Proof. now apply str_eqb_eq. Qed.

Lemma str_eqb_neq (a b : str) : str_eqb a b = false <-> a <> b.
Proof.
  unfold str_eqb. destruct (list_eq_dec ascii_dec a b); split; congruence.
Qed.

(** [split] cuts at every separator and nowhere else. *)
Lemma split_not_nil (sep : ascii) (s : str) : split sep s <> [].
Proof.
  destruct s as [|c s]; simpl; [discriminate|].
  destruct (Ascii.eqb c sep); [discriminate|].
  destruct (split sep s); discriminate.
Qed.

Lemma join_split (sep : ascii) (s : str) : join sep (split sep s) = s.
Proof.
  induction s as [|c s IH]; [reflexivity|].
  simpl. destruct (Ascii.eqb c sep) eqn:E.
  - apply Ascii.eqb_eq in E; subst c.
    pose proof (split_not_nil sep s).
    destruct (split sep s) as [|p ps]; [congruence|].
    change (join sep ([] :: p :: ps)) with ([] ++ sep :: join sep (p :: ps)).
    cbn [app]. now rewrite IH.
  - pose proof (split_not_nil sep s).
    destruct (split sep s) as [|p ps]; [congruence|].
    destruct ps as [|q ps]; [simpl in *; now rewrite IH|].
    change (join sep ((c :: p) :: q :: ps))
      with (c :: (p ++ sep :: join sep (q :: ps))).
    change (join sep (p :: q :: ps))
      with (p ++ sep :: join sep (q :: ps)) in IH.
    now rewrite IH.
Qed.

Lemma split_no_sep (sep : ascii) (s p : str) :
  In p (split sep s) -> ~ In sep p.
Proof.
  revert p; induction s as [|c s IH]; intros p H.
  - destruct H as [<-|[]]. intros [].
  - simpl in H. destruct (Ascii.eqb c sep) eqn:E.
    + destruct H as [<-|H]; [intros []|now apply IH].
    + destruct (split sep s) as [|q qs].
      * destruct H as [<-|[]]. intros [->|[]].
        now rewrite Ascii.eqb_refl in E.
      * destruct H as [<-|H].
        -- intros [->|Hq]; [now rewrite Ascii.eqb_refl in E|].
           apply (IH q); simpl; auto.
        -- apply IH. simpl; auto.
Qed.

(** The pieces of a text without separator inside, joined, split back. *)
Lemma split_join (sep : ascii) (ps : list str) :
  ps <> [] -> (forall p, In p ps -> ~ In sep p) ->
  split sep (join sep ps) = ps.
Proof.
  assert (one : forall p, ~ In sep p -> split sep p = [p]).
  { induction p as [|c p IH]; intros H; [reflexivity|].
    simpl. destruct (Ascii.eqb c sep) eqn:E.
    - apply Ascii.eqb_eq in E; subst c. exfalso; apply H; simpl; auto.
    - rewrite IH; [reflexivity|]. intros H'; apply H; simpl; auto. }
  assert (more : forall p rest, ~ In sep p ->
            split sep (p ++ sep :: rest) = p :: split sep rest).
  { induction p as [|c p IH]; intros rest H.
    - simpl. now rewrite Ascii.eqb_refl.
    - simpl. destruct (Ascii.eqb c sep) eqn:E.
      + apply Ascii.eqb_eq in E; subst c. exfalso; apply H; simpl; auto.
      + rewrite IH; [reflexivity|]. intros H'; apply H; simpl; auto. }
  induction ps as [|p ps IH]; intros Hne Hps; [congruence|].
  destruct ps as [|q ps].
  - simpl. apply one. apply Hps; simpl; auto.
  - change (join sep (p :: q :: ps)) with (p ++ sep :: join sep (q :: ps)).
    rewrite more by (apply Hps; simpl; auto).
    rewrite IH; [reflexivity|discriminate|].
    intros r Hr. apply Hps. simpl in *; tauto.
Qed.

Lemma keep_stripped_filter (pieces : list str) :
  keep_stripped pieces = filter truthy (map strip pieces).
Proof.
  induction pieces as [|kw rest IH]; [reflexivity|].
  simpl. destruct (truthy (strip kw)); now rewrite IH.
Qed.

(** C5. [tokenize] is: split on the underscore, strip each piece, drop
    the empty ones, in order and with duplicates; on ["a_ _b_c_"] it
    gives [a], [b], [c]. *)
Theorem tokenize_spec (raw : str) :
  tokenize raw = split_trim_discard raw /\
  tokenize (py "a_ _b_c_") = [py "a"; py "b"; py "c"].
Proof.
  split; [apply keep_stripped_filter|reflexivity].
Qed.

(** ** Clean keywords *)

Lemma lstrip_hd (s : str) (c : ascii) (r : str) :
  lstrip s = c :: r -> isspace c = false.
Proof.
  induction s as [|d s IH]; simpl; [discriminate|].
  destruct (isspace d) eqn:E; [assumption|].
  intros [= <- _]. exact E.
Qed.

Lemma lstrip_app_nonspace (l : str) (c : ascii) :
  isspace c = false -> lstrip (l ++ [c]) = lstrip l ++ [c].
Proof.
  intros Hc. induction l as [|d l IH]; simpl.
  - now rewrite Hc.
  - destruct (isspace d); [assumption|reflexivity].
Qed.

Lemma rstrip_cons_nonspace (c : ascii) (r : str) :
  isspace c = false -> rstrip (c :: r) = c :: rstrip r.
Proof.
  intros Hc. unfold rstrip. simpl rev.
  rewrite lstrip_app_nonspace by assumption.
  rewrite rev_app_distr. reflexivity.
Qed.

Lemma strip_hd (s : str) (d : ascii) :
  strip s <> [] -> isspace (hd d (strip s)) = false.
Proof.
  unfold strip. destruct (lstrip s) as [|c r] eqn:E; [now intros []|].
  intros _. pose proof (lstrip_hd _ _ _ E) as Hc.
  now rewrite rstrip_cons_nonspace.
Qed.

Lemma strip_last (s : str) (d : ascii) :
  strip s <> [] -> isspace (last (strip s) d) = false.
Proof.
  unfold strip, rstrip.
  destruct (lstrip (rev (lstrip s))) as [|c r] eqn:E; [now intros []|].
  intros _. simpl rev. rewrite last_last. exact (lstrip_hd _ _ _ E).
Qed.

Lemma strip_In (s : str) (c : ascii) : In c (strip s) -> In c s.
Proof.
  destruct (strip_infix s) as (x & y & E). intros H.
  rewrite E. apply in_or_app; right. apply in_or_app; now left.
Qed.

Lemma keep_stripped_In (pieces : list str) (kw : str) :
  In kw (keep_stripped pieces) ->
  exists p, In p pieces /\ kw = strip p /\ kw <> [].
Proof.
  induction pieces as [|p rest IH]; simpl; [now intros []|].
  destruct (truthy (strip p)) eqn:E.
  - intros [<-|H].
    + exists p. repeat split; auto. destruct (strip p); discriminate.
    + destruct (IH H) as (q & Hq & Hk). exists q; auto.
  - intros H. destruct (IH H) as (q & Hq & Hk). exists q; auto.
Qed.

Lemma tokenize_clean (x kw : str) : In kw (tokenize x) -> clean_keyword kw.
Proof.
  intros H. apply keep_stripped_In in H as (p & Hp & -> & Hne).
  repeat split.
  - exact Hne.
  - now apply strip_hd.
  - now apply strip_last.
  - intros Hu. apply strip_In in Hu. exact (split_no_sep _ _ _ Hp Hu).
Qed.

(** ** The dictionary of counts *)

Lemma bump_get (d : dict) (kw k : str) :
  dict_get (bump d kw) k 0 =
  dict_get d k 0 + (if str_eqb k kw then 1 else 0).
Proof.
  unfold bump. induction d as [|[k' v'] d IH]; simpl.
  - destruct (str_eqb k kw); reflexivity.
  - destruct (str_eqb kw k') eqn:E.
    + apply str_eqb_eq in E; subst k'. simpl.
      destruct (str_eqb k kw); lia.
    + simpl. destruct (str_eqb k k') eqn:E'.
      * apply str_eqb_eq in E'; subst k'.
        replace (str_eqb k kw) with false; [lia|].
        symmetry. apply str_eqb_neq. apply str_eqb_neq in E. congruence.
      * exact IH.
Qed.

Lemma bump_sum (d : dict) (kw : str) :
  list_sum (map snd (bump d kw)) = list_sum (map snd d) + 1.
Proof.
  unfold bump. induction d as [|[k' v'] d IH]; simpl; [reflexivity|].
  destruct (str_eqb kw k'); simpl; lia.
Qed.

Lemma bump_In (d : dict) (kw k : str) (n : nat) :
  In (k, n) (bump d kw) -> In (k, n) d \/ (k = kw /\ 1 <= n).
Proof.
  unfold bump. induction d as [|[k' v'] d IH]; simpl.
  - intros [[= <- <-]|[]]. right; split; [reflexivity|lia].
  - destruct (str_eqb kw k') eqn:E.
    + apply str_eqb_eq in E; subst k'.
      intros [[= <- <-]|H]; [right; split; [reflexivity|lia]|auto].
    + intros [H|H]; [auto|]. destruct (IH H) as [H'|H']; auto.
Qed.

Lemma bump_keys (d : dict) (kw k : str) :
  In k (map fst (bump d kw)) <-> In k (map fst d) \/ k = kw.
Proof.
  unfold bump. induction d as [|[k' v'] d IH]; simpl.
  - split; [intros [<-|[]]; auto|intros [[]|<-]; auto].
  - destruct (str_eqb kw k') eqn:E.
    + apply str_eqb_eq in E; subst k'. simpl. split; [tauto|].
      intros [H| ->]; auto.
    + simpl. rewrite IH. tauto.
Qed.

Lemma bump_NoDup (d : dict) (kw : str) :
  NoDup (map fst d) -> NoDup (map fst (bump d kw)).
Proof.
  induction d as [|[k' v'] d IH]; intros H.
  - unfold bump; simpl. constructor; [intros []|constructor].
  - inversion H as [|? ? Hnotin Hd]; subst.
    unfold bump in *. simpl.
    destruct (str_eqb kw k') eqn:E; simpl.
    + now constructor.
    + constructor; [|now apply IH].
      intros Hin. apply (bump_keys d kw k') in Hin as [Hin| ->]; [auto|].
      now rewrite str_eqb_refl in E.
Qed.

Lemma dict_get_In (d : dict) (k : str) (n : nat) :
  NoDup (map fst d) -> In (k, n) d -> dict_get d k 0 = n.
Proof.
  induction d as [|[k' v'] d IH]; intros H Hin; [destruct Hin|].
  inversion H as [|? ? Hnotin Hd]; subst. simpl.
  destruct Hin as [[= -> ->]|Hin].
  - now rewrite str_eqb_refl.
  - destruct (str_eqb k k') eqn:E; [|now apply IH].
    apply str_eqb_eq in E; subst k'.
    exfalso; apply Hnotin. now apply (in_map fst) in Hin.
Qed.

Lemma fold_bump_sum (kws : list str) (d : dict) :
  list_sum (map snd (fold_left bump kws d)) =
  list_sum (map snd d) + length kws.
Proof.
  revert d; induction kws as [|kw kws IH]; intros d; simpl; [lia|].
  rewrite IH, bump_sum. lia.
Qed.

Lemma fold_bump_In (kws : list str) (d : dict) (k : str) (n : nat) :
  In (k, n) (fold_left bump kws d) ->
  In (k, n) d \/ (In k kws /\ 1 <= n).
Proof.
  revert d; induction kws as [|kw kws IH]; intros d; simpl; [auto|].
  intros H. destruct (IH _ H) as [H'|[H' Hn]]; [|tauto].
  destruct (bump_In _ _ _ _ H') as [H''|[-> Hn]]; auto.
Qed.

Lemma fold_bump_NoDup (kws : list str) (d : dict) :
  NoDup (map fst d) -> NoDup (map fst (fold_left bump kws d)).
Proof.
  revert d; induction kws as [|kw kws IH]; intros d H; simpl; [exact H|].
  apply IH. now apply bump_NoDup.
Qed.

Lemma fold_bump_get (kws : list str) (d : dict) (k : str) :
  dict_get (fold_left bump kws d) k 0 =
  dict_get d k 0 + count_occ str_dec kws k.
Proof.
  revert d; induction kws as [|kw kws IH]; intros d; simpl; [lia|].
  rewrite IH, bump_get. unfold str_eqb, str_dec.
  destruct (list_eq_dec ascii_dec k kw), (list_eq_dec ascii_dec kw k);
    try congruence; lia.
Qed.

Lemma fold_bump_keys (kws : list str) (d : dict) (k : str) :
  In k (map fst (fold_left bump kws d)) <-> In k (map fst d) \/ In k kws.
Proof.
  revert d; induction kws as [|kw kws IH]; intros d; simpl; [tauto|].
  rewrite IH, bump_keys. intuition congruence.
Qed.

(** ** Sorting by count *)

Lemma insert_desc_In (x y : str * nat) (l : list (str * nat)) :
  In y (insert_desc x l) <-> y = x \/ In y l.
Proof.
  induction l as [|z l IH]; simpl; [intuition congruence|].
  destruct (snd x <? snd z); simpl; [rewrite IH|]; intuition congruence.
Qed.

Lemma sorted_desc_In (y : str * nat) (l : list (str * nat)) :
  In y (sorted_desc l) <-> In y l.
Proof.
  induction l as [|x l IH]; simpl; [tauto|].
  rewrite insert_desc_In, IH. intuition congruence.
Qed.

Lemma insert_desc_sum (x : str * nat) (l : list (str * nat)) :
  list_sum (map snd (insert_desc x l)) = snd x + list_sum (map snd l).
Proof.
  induction l as [|z l IH]; simpl; [reflexivity|].
  destruct (snd x <? snd z); simpl; [rewrite IH|]; lia.
Qed.

Lemma sorted_desc_sum (l : list (str * nat)) :
  list_sum (map snd (sorted_desc l)) = list_sum (map snd l).
Proof.
  induction l as [|x l IH]; simpl; [reflexivity|].
  rewrite insert_desc_sum, IH. reflexivity.
Qed.

Lemma sorted_desc_keys (k : str) (l : list (str * nat)) :
  In k (map fst (sorted_desc l)) <-> In k (map fst l).
Proof.
  rewrite !in_map_iff. split; intros (y & E & H); exists y;
    (split; [exact E|]); now apply sorted_desc_In.
Qed.

Lemma insert_desc_descending (x : str * nat) (l : list (str * nat)) :
  descending l -> descending (insert_desc x l).
Proof.
  induction 1 as [|z l Hz Hl IH]; simpl.
  - constructor; [intros y []|constructor].
  - destruct (snd x <? snd z) eqn:E.
    + apply Nat.ltb_lt in E. constructor; [|exact IH].
      intros y Hy. apply insert_desc_In in Hy as [->|Hy]; [lia|auto].
    + apply Nat.ltb_ge in E. constructor; [|now constructor].
      intros y [<-|Hy]; [lia|]. specialize (Hz y Hy). lia.
Qed.

Lemma sorted_desc_descending (l : list (str * nat)) :
  descending (sorted_desc l).
Proof.
  induction l as [|x l IH]; simpl; [constructor|].
  now apply insert_desc_descending.
Qed.

(** ** Keyword frequency *)

Lemma keyword_freq_fold_sum (df : list WorkingRow) (d : dict) :
  list_sum (map snd
    (fold_left (fun d row => fold_left bump (Keyword_List row) d) df d)) =
  list_sum (map snd d) +
  list_sum (map (fun row => length (Keyword_List row)) df).
Proof.
  revert d; induction df as [|row df IH]; intros d; simpl; [lia|].
  rewrite IH, fold_bump_sum. lia.
Qed.

Lemma keyword_freq_fold_In (df : list WorkingRow) (d : dict)
  (k : str) (n : nat) :
  In (k, n)
    (fold_left (fun d row => fold_left bump (Keyword_List row) d) df d) ->
  In (k, n) d \/
  ((exists row, In row df /\ In k (Keyword_List row)) /\ 1 <= n).
Proof.
  revert d; induction df as [|row df IH]; intros d; simpl; [auto|].
  intros H. destruct (IH _ H) as [H'|[(r & Hr & Hk) Hn]].
  - destruct (fold_bump_In _ _ _ _ H') as [H''|[Hk Hn]]; [auto|].
    right; split; [exists row|]; auto.
  - right; split; [exists r|]; auto.
Qed.

(** C6. The counts of the keyword table add up to the number of
    (row, keyword) pairs: the sum over the rows of the length of the
    keyword list, both in the dictionary and in the sorted table. *)
Theorem keyword_freq_sum (df_cleaned : list WorkingRow) :
  list_sum (map snd (sorted_keywords df_cleaned)) =
    list_sum (map (fun row => length (Keyword_List row)) df_cleaned) /\
  list_sum (map snd (keyword_freq df_cleaned)) =
    list_sum (map (fun row => length (Keyword_List row)) df_cleaned).
Proof.
  unfold sorted_keywords. rewrite sorted_desc_sum.
  unfold keyword_freq. rewrite keyword_freq_fold_sum. simpl. auto.
Qed.

Lemma keyword_freq_get (df : list WorkingRow) (d : dict) (k : str) :
  dict_get
    (fold_left (fun d row => fold_left bump (Keyword_List row) d) df d) k 0 =
  dict_get d k 0 + count_occ str_dec (flat_map Keyword_List df) k.
Proof.
  revert d; induction df as [|row df IH]; intros d; simpl; [lia|].
  rewrite IH, fold_bump_get, count_occ_app. lia.
Qed.

(** ** Anxiety counts *)

Lemma lstrip_nil (s : str) : lstrip s = [] <-> blank s = true.
Proof.
  induction s as [|c s IH]; simpl; [tauto|].
  destruct (isspace c); simpl; [exact IH|]. split; discriminate.
Qed.

Lemma strip_nil (s : str) : strip s = [] <-> blank s = true.
Proof.
  rewrite <- lstrip_nil. unfold strip.
  destruct (lstrip s) as [|c r] eqn:E; [tauto|].
  rewrite rstrip_cons_nonspace by exact (lstrip_hd _ _ _ E).
  split; discriminate.
Qed.

Lemma not_blank (s : str) :
  negb (str_eqb (strip s) []) = negb (blank s).
Proof.
  f_equal. destruct (blank s) eqn:E.
  - apply str_eqb_eq. now apply strip_nil.
  - apply str_eqb_neq. intros H. apply strip_nil in H. congruence.
Qed.

Lemma dropna_Some (col : list str) : dropna (map Some col) = col.
Proof.
  induction col as [|s col IH]; simpl; [reflexivity|now rewrite IH].
Qed.

Lemma count_occ_filter (p : str -> bool) (l : list str) (v : str) :
  count_occ str_dec (filter p l) v =
  if p v then count_occ str_dec l v else 0.
Proof.
  induction l as [|x l IH]; simpl; [now destruct (p v)|].
  destruct (p x) eqn:Ex; simpl; destruct (str_dec x v) as [->|Hne];
    rewrite ?IH; try rewrite Ex; try reflexivity;
    destruct (p v); reflexivity.
Qed.

Lemma value_counts_entries (col : list str) (v : str) (n : nat) :
  In (v, n) (value_counts col) ->
  In v col /\ 1 <= n /\ n = count_occ str_dec col v.
Proof.
  unfold value_counts. rewrite sorted_desc_In. intros H.
  assert (Hnd : NoDup (map fst (fold_left bump col [])))
    by (apply fold_bump_NoDup; constructor).
  pose proof (dict_get_In _ _ _ Hnd H) as Hget.
  rewrite fold_bump_get in Hget. simpl in Hget.
  destruct (fold_bump_In _ _ _ _ H) as [[]|[Hin Hn]]. auto.
Qed.

Lemma value_counts_keys (col : list str) (v : str) :
  In v (map fst (value_counts col)) <-> In v col.
Proof.
  unfold value_counts. rewrite sorted_desc_keys, fold_bump_keys.
  simpl. tauto.
Qed.

Lemma value_counts_sum (col : list str) :
  list_sum (map snd (value_counts col)) = length col.
Proof.
  unfold value_counts. rewrite sorted_desc_sum, fold_bump_sum. reflexivity.
Qed.

(** C7. The anxiety table is the list of counted values followed by the
    row [Total]; a counted value is never blank and its count is the
    number of rows holding it; every value that is not blank is counted;
    [Total] is the sum of the other counts, the number of rows whose
    value is not blank. *)
Theorem anxiety_counts_total (df_cleaned : list WorkingRow) :
  let anxiety := fun row => Customers_Anxiety (sections row) in
  exists entries total,
    anxiety_df_with_total df_cleaned = entries ++ [(py "Total", total)] /\
    total = list_sum (map snd entries) /\
    total = length (filter (fun row => negb (blank (anxiety row)))
                           df_cleaned) /\
    (forall v n, In (v, n) entries ->
       blank v = false /\ 1 <= n /\
       n = count_occ str_dec (map anxiety df_cleaned) v) /\
    (forall row, In row df_cleaned -> blank (anxiety row) = false ->
       In (anxiety row) (map fst entries)).
Proof.
  intros anxiety.
  exists (anxiety_counts df_cleaned),
         (list_sum (map snd (anxiety_counts df_cleaned))).
  split; [reflexivity|]. split; [reflexivity|].
  unfold anxiety_counts.
  rewrite <- (map_map (fun row => Customers_Anxiety (sections row)) Some).
  rewrite dropna_Some. fold anxiety.
  repeat split.
  - rewrite value_counts_sum.
    induction df_cleaned as [|row df IH]; simpl; [reflexivity|].
    rewrite not_blank. destruct (negb (blank (anxiety row))); simpl; lia.
  - apply value_counts_entries in H as (Hin & _ & _).
    apply filter_In in Hin as [_ Hv]. rewrite not_blank in Hv.
    now destruct (blank v).
  - now apply value_counts_entries in H.
  - apply value_counts_entries in H as (Hin & _ & ->).
    rewrite count_occ_filter.
    apply filter_In in Hin as [_ Hv]. now rewrite Hv.
  - intros row Hrow Hb. apply value_counts_keys.
    apply filter_In. split; [now apply in_map|].
    rewrite not_blank, Hb. reflexivity.
Qed.

(** ** The batch processor *)

Lemma empty_no_rows (df : DataFrame) : rows df = [] -> empty df = true.
Proof. unfold empty. intros ->. now destruct (columns df). Qed.

(** C9. A file that cannot be read, a table without rows and a table
    without a [thread_text] column end the same way: [load_and_process]
    returns (it does not raise) the table without rows after one
    [st.error] message, and the main logic shows nothing. *)
Theorem load_and_process_rejected (file : upload) (log : list str) :
  rejected file ->
  exists msg,
    load_and_process file log = (Ret [], log ++ [msg]) /\
    main (Some file) log = (Ret None, log ++ [msg]).
Proof.
  intros H.
  assert (E : exists msg, load_and_process file log = (Ret [], log ++ [msg])).
  { destruct file as [e|df]; [eexists; reflexivity|].
    unfold load_and_process.
    destruct (empty df) eqn:Ee; [eexists; reflexivity|].
    destruct H as [H|H].
    - rewrite (empty_no_rows df H) in Ee. discriminate.
    - rewrite H. eexists; reflexivity. }
  destruct E as [msg E]. exists msg. split; [exact E|].
  unfold main, bind. now rewrite E.
Qed.

Lemma load_and_process_rejected_witness :
  exists msg,
    load_and_process
      (Parsed {| columns := [py "id"]; rows := [[Some (py "1")]] |}) []
    = (Ret [], [] ++ [msg]) /\
    main (Some (Parsed {| columns := [py "id"];
                          rows := [[Some (py "1")]] |})) []
    = (Ret None, [] ++ [msg]).
Proof.
  apply (load_and_process_rejected
           (Parsed {| columns := [py "id"]; rows := [[Some (py "1")]] |}) []).
  right. reflexivity.
Defined.

(** What a run that returns has done. *)
Lemma load_and_process_Ret (file : upload) (log log' : list str)
  (df_cleaned : list WorkingRow) :
  load_and_process file log = (Ret df_cleaned, log') ->
  df_cleaned = [] \/
  exists df i ss,
    file = Parsed df /\ text_column (columns df) = Some i /\
    apply_extract (column df i) = Ret ss /\
    df_cleaned = assemble df (rows df) ss.
Proof.
  destruct file as [e|df]; unfold load_and_process.
  - intros [= <- _]. now left.
  - destruct (empty df); [intros [= <- _]; now left|].
    destruct (text_column (columns df)) as [i|] eqn:Ei;
      [|intros [= <- _]; now left].
    unfold bind, lift, ret.
    destruct (apply_extract (column df i)) as [ss|e] eqn:Es;
      [|discriminate].
    intros [= <- _]. right. now exists df, i, ss.
Qed.

Lemma assemble_In (df : DataFrame) (rs : list (list cell))
  (ss : list Sections) (row : WorkingRow) :
  In row (assemble df rs ss) ->
  exists s, Keyword_List row = tokenize (Important_Keywords s).
Proof.
  revert ss; induction rs as [|r rs IH]; intros [|s ss]; simpl;
    try now intros [].
  intros [<-|H]; [now exists s|now apply (IH ss)].
Qed.

(** C10. In a table returned by [load_and_process] every keyword of
    every row is clean: not empty, without white space at either end,
    without underscore; so is every key of the keyword table, sorted or
    not, and every count is at least one. *)
Theorem keywords_clean (file : upload) (log log' : list str)
  (df_cleaned : list WorkingRow) :
  load_and_process file log = (Ret df_cleaned, log') ->
  (forall row kw, In row df_cleaned -> In kw (Keyword_List row) ->
     clean_keyword kw) /\
  (forall kw n, In (kw, n) (keyword_freq df_cleaned) ->
     clean_keyword kw /\ 1 <= n) /\
  (forall kw n, In (kw, n) (sorted_keywords df_cleaned) ->
     clean_keyword kw /\ 1 <= n).
Proof.
  intros H.
  assert (Hrows : forall row kw, In row df_cleaned ->
            In kw (Keyword_List row) -> clean_keyword kw).
  { intros row kw Hrow Hkw.
    destruct (load_and_process_Ret _ _ _ _ H)
      as [->|(df & i & ss & _ & _ & _ & ->)]; [destruct Hrow|].
    destruct (assemble_In _ _ _ _ Hrow) as [s Hs].
    rewrite Hs in Hkw. exact (tokenize_clean _ _ Hkw). }
  assert (Hfreq : forall kw n, In (kw, n) (keyword_freq df_cleaned) ->
            clean_keyword kw /\ 1 <= n).
  { intros kw n Hin.
    destruct (keyword_freq_fold_In _ _ _ _ Hin)
      as [[]|[(row & Hrow & Hkw) Hn]].
    split; [exact (Hrows row kw Hrow Hkw)|exact Hn]. }
  split; [exact Hrows|]. split; [exact Hfreq|].
  intros kw n Hin. apply Hfreq.
  unfold sorted_keywords in Hin. exact (proj1 (sorted_desc_In _ _) Hin).
Qed.

Lemma keywords_clean_witness :
  let file :=
    Parsed {| columns := [py "thread_text"];
              rows := [[Some (py "<b>Important Keywords:</b> refund_ card _")]]
           |} in
  let df_cleaned :=
    match fst (load_and_process file []) with
    | Ret d => d
    | Raise _ => []
    end in
  (forall row kw, In row df_cleaned -> In kw (Keyword_List row) ->
     clean_keyword kw) /\
  (forall kw n, In (kw, n) (keyword_freq df_cleaned) ->
     clean_keyword kw /\ 1 <= n) /\
  (forall kw n, In (kw, n) (sorted_keywords df_cleaned) ->
     clean_keyword kw /\ 1 <= n).
Proof.
  intros file df_cleaned.
  apply (keywords_clean file [] [] df_cleaned).
  vm_compute. reflexivity.
Defined.

(** On a table whose text cells are all strings the batch processor
    returns one row per input row, in the order of the input. *)
Lemma apply_extract_strings (col : list cell) :
  (forall c, In c col -> c <> None) ->
  exists ss, apply_extract col = Ret ss /\ length ss = length col.
Proof.
  induction col as [|c col IH]; intros H.
  - now exists [].
  - destruct IH as (ss & E & L); [intros; apply H; simpl; auto|].
    destruct c as [text|]; [|exfalso; now apply (H None); simpl; auto].
    cbn [apply_extract]. rewrite extract_sections_text, E.
    eexists. split; [reflexivity|]. simpl. now rewrite L.
Qed.

Lemma assemble_length (df : DataFrame) (rs : list (list cell))
  (ss : list Sections) :
  length ss = length rs -> length (assemble df rs ss) = length rs.
Proof.
  revert ss; induction rs as [|r rs IH]; intros [|s ss]; simpl;
    try discriminate; try reflexivity.
  intros [= H]. now rewrite IH.
Qed.

Lemma apply_extract_nth (col : list cell) (ss : list Sections) :
  apply_extract col = Ret ss ->
  forall n c, nth_error col n = Some c ->
  exists s, nth_error ss n = Some s /\ extract_sections c = Ret s.
Proof.
  revert ss; induction col as [|c0 col IH]; intros ss H n c Hn.
  - destruct n; discriminate.
  - cbn [apply_extract] in H.
    destruct (extract_sections c0) as [s0|e] eqn:E0; [|discriminate].
    destruct (apply_extract col) as [ss0|e] eqn:E1; [|discriminate].
    cbn [bind_outcome] in H. injection H as <-.
    destruct n as [|n]; simpl in Hn.
    + injection Hn as <-. now exists s0.
    + apply (IH ss0 eq_refl n c Hn).
Qed.

Lemma assemble_nth (df : DataFrame) (rs : list (list cell))
  (ss : list Sections) (n : nat) (r : list cell) (s : Sections) :
  nth_error rs n = Some r -> nth_error ss n = Some s ->
  nth_error (assemble df rs ss) n = Some (working_row df r s).
Proof.
  revert ss n; induction rs as [|r0 rs IH]; intros [|s0 ss] [|n];
    simpl; try discriminate.
  - now intros [= ->] [= ->].
  - apply IH.
Qed.

Lemma load_and_process_row_count (df : DataFrame) (i : nat)
  (log : list str) :
  empty df = false -> text_column (columns df) = Some i ->
  (forall r, In r (rows df) -> nth i r None <> None) ->
  exists df_cleaned,
    load_and_process (Parsed df) log = (Ret df_cleaned, log) /\
    length df_cleaned = length (rows df) /\
    forall n r, nth_error (rows df) n = Some r ->
      exists s, extract_sections (nth i r None) = Ret s /\
                nth_error df_cleaned n = Some (working_row df r s).
Proof.
  intros He Hi Hs.
  destruct (apply_extract_strings (column df i)) as (ss & E & L).
  { unfold column. intros c Hc. apply in_map_iff in Hc as (r & <- & Hr).
    now apply Hs. }
  exists (assemble df (rows df) ss). split; [|split].
  - unfold load_and_process. rewrite He, Hi.
    unfold bind, lift, ret. now rewrite E.
  - apply assemble_length. rewrite L. unfold column. apply length_map.
  - intros n r Hn.
    destruct (apply_extract_nth _ _ E n (nth i r None)) as (s & Hs1 & Hs2).
    { unfold column. rewrite nth_error_map.
      change (nth_error (rows df) n = Some r) in Hn.
      unfold cell in *. now rewrite Hn. }
    exists s. split; [exact Hs2|]. now apply assemble_nth.
Qed.

(** C3, the input on which the code fails. A row whose text cell is NaN
    (an empty field of the file) makes [re.search] raise [TypeError]:
    the batch processor does not complete and returns no table. *)
Theorem load_and_process_missing_text :
  extract_sections None = Raise TypeError /\
  load_and_process
    (Parsed {| columns := [py "id"; py "thread_text"];
               rows := [[Some (py "1"); None]] |}) []
  = (Raise TypeError, []).
Proof. split; reflexivity. Qed.

(** ** Comparison ignoring case *)

Lemma capital_test (n : nat) :
  ((65 <=? n) && (n <=? 90))
  || ((192 <=? n) && (n <=? 222) && negb (n =? 215)) = true <-> capital n.
Proof.
  unfold capital.
  rewrite orb_true_iff, !andb_true_iff, negb_true_iff, !Nat.leb_le,
    Nat.eqb_neq. tauto.
Qed.

Lemma lower_char_code (c : ascii) :
  (capital (nat_of_ascii c) /\
   nat_of_ascii (lower_char c) = nat_of_ascii c + 32) \/
  (~ capital (nat_of_ascii c) /\ lower_char c = c).
Proof.
  unfold lower_char.
  destruct (((65 <=? nat_of_ascii c) && (nat_of_ascii c <=? 90))
            || ((192 <=? nat_of_ascii c) && (nat_of_ascii c <=? 222)
                && negb (nat_of_ascii c =? 215))) eqn:E.
  - apply capital_test in E. left. split; [exact E|].
    apply nat_ascii_embedding. unfold capital in E. lia.
  - right. split; [|reflexivity]. intros H. apply capital_test in H.
    congruence.
Qed.

Lemma nat_of_ascii_inj (c d : ascii) :
  nat_of_ascii c = nat_of_ascii d -> c = d.
Proof.
  intros H. rewrite <- (ascii_nat_embedding c), <- (ascii_nat_embedding d).
  now rewrite H.
Qed.

Lemma lower_char_same (c d : ascii) :
  lower_char c = lower_char d <-> same_letter c d.
Proof.
  unfold same_letter; cbv zeta.
  destruct (lower_char_code c) as [[Hc Ec]|[Hc Ec]],
           (lower_char_code d) as [[Hd Ed]|[Hd Ed]].
  - split.
    + intros H. rewrite H in Ec. unfold capital in *. lia.
    + intros H. apply nat_of_ascii_inj. unfold capital in *. lia.
  - rewrite Ed. split.
    + intros H. rewrite H in Ec. unfold capital in *. lia.
    + intros H. apply nat_of_ascii_inj. unfold capital in *. lia.
  - rewrite Ec. split.
    + intros H. rewrite H. unfold capital in *. lia.
    + intros H. apply nat_of_ascii_inj. unfold capital in *. lia.
  - rewrite Ec, Ed. split.
    + intros ->. unfold capital in *. lia.
    + intros H. apply nat_of_ascii_inj. unfold capital in *. lia.
Qed.

Lemma lower_same (a b : str) :
  lower a = lower b <-> same_ignoring_case a b.
Proof.
  unfold same_ignoring_case, lower. revert b.
  induction a as [|c a IH]; intros [|d b]; simpl; split; intros H;
    try discriminate; try constructor; try inversion H; subst;
    try reflexivity.
  - now apply lower_char_same.
  - now apply IH.
  - f_equal; [now apply lower_char_same|now apply IH].
Qed.

(** ** Search by keywords *)

Lemma keep_stripped_lower_typed (keywords : list str) :
  Forall typed_keyword keywords ->
  keep_stripped_lower keywords = map lower keywords.
Proof.
  induction 1 as [|kw kws (_ & Hne & Hs) _ IH]; [reflexivity|].
  simpl. rewrite Hs, IH. destruct kw; [congruence|reflexivity].
Qed.

Lemma search_keywords_join (keywords : list str) :
  Forall typed_keyword keywords ->
  search_keywords (join "," keywords) = map lower keywords.
Proof.
  intros H. unfold search_keywords.
  destruct keywords as [|kw kws]; [reflexivity|].
  rewrite split_join.
  - now apply keep_stripped_lower_typed.
  - discriminate.
  - intros p Hp. rewrite Forall_forall in H. now apply H.
Qed.

Lemma str_in_In (x : str) (xs : list str) : str_in x xs = true <-> In x xs.
Proof.
  unfold str_in. rewrite existsb_exists. split.
  - intros (y & Hy & E). apply str_eqb_eq in E. now subst.
  - intros H. exists x. split; [exact H|apply str_eqb_refl].
Qed.

Lemma any_keyword_lower (keywords kws : list str) :
  any_keyword (map lower keywords) kws = true <->
  exists kw k, In kw keywords /\ In k kws /\ same_ignoring_case kw k.
Proof.
  unfold any_keyword. rewrite existsb_exists. split.
  - intros (x & Hx & Hin). apply in_map_iff in Hx as (kw & <- & Hkw).
    apply str_in_In, in_map_iff in Hin as (k & E & Hk).
    exists kw, k. repeat split; auto. apply lower_same. congruence.
  - intros (kw & k & Hkw & Hk & Hs). exists (lower kw).
    split; [now apply in_map|]. apply str_in_In.
    apply lower_same in Hs. rewrite Hs. now apply in_map.
Qed.

Lemma join_typed (keywords : list str) :
  keywords <> [] -> Forall typed_keyword keywords ->
  truthy (join "," keywords) = true.
Proof.
  intros Hne H. destruct keywords as [|kw kws]; [congruence|].
  inversion H as [|? ? (_ & Hkw & _) _]; subst.
  destruct kw as [|c kw]; [congruence|]. now destruct kws.
Qed.

(** C8. For keywords typed in the search box, the rows returned are, in
    order, exactly the rows whose keyword list holds a keyword equal to
    one of them up to case; [Refund,REFUND] and [refund] return the same
    rows of every table. *)
Theorem filtered_df_text_any_keyword (df_cleaned : list WorkingRow)
  (keywords : list str) :
  keywords <> [] -> Forall typed_keyword keywords ->
  (exists keep,
     filtered_df_text df_cleaned (join "," keywords) =
       Some (filter keep df_cleaned) /\
     forall row, keep row = true <->
       exists kw k, In kw keywords /\ In k (Keyword_List row) /\
                    same_ignoring_case kw k) /\
  filtered_df_text df_cleaned (join "," [py "Refund"; py "REFUND"]) =
  filtered_df_text df_cleaned (join "," [py "refund"]).
Proof.
  intros Hne H. split.
  - exists (fun row => any_keyword (map lower keywords) (Keyword_List row)).
    split.
    + unfold filtered_df_text. rewrite search_keywords_join by assumption.
      now rewrite (join_typed keywords Hne H).
    + intros row. apply any_keyword_lower.
  - change (join "," [py "Refund"; py "REFUND"]) with (py "Refund,REFUND").
    change (join "," [py "refund"]) with (py "refund").
    unfold filtered_df_text.
    change (truthy (py "Refund,REFUND")) with true.
    change (truthy (py "refund")) with true. cbv iota.
    f_equal. apply filter_ext. intros row.
    change (search_keywords (py "Refund,REFUND"))
      with [py "refund"; py "refund"].
    change (search_keywords (py "refund")) with [py "refund"].
    unfold any_keyword. cbn [existsb].
    now destruct (str_in (py "refund") (map lower (Keyword_List row))).
Qed.

Lemma filtered_df_text_any_keyword_witness :
  let df_cleaned :=
    [working_row {| columns := []; rows := [] |} []
       {| Customer_Issue := []; Agents_Actions := [];
          Customers_Anxiety := [];
          Important_Keywords := py "Refund_card" |}] in
  let keywords := [py "REFUND"] in
  (exists keep,
     filtered_df_text df_cleaned (join "," keywords) =
       Some (filter keep df_cleaned) /\
     forall row, keep row = true <->
       exists kw k, In kw keywords /\ In k (Keyword_List row) /\
                    same_ignoring_case kw k) /\
  filtered_df_text df_cleaned (join "," [py "Refund"; py "REFUND"]) =
  filtered_df_text df_cleaned (join "," [py "refund"]).
Proof.
  intros df_cleaned keywords.
  apply (filtered_df_text_any_keyword df_cleaned keywords).
  discriminate.
  repeat constructor; try discriminate.
  intros [H|[H|[H|[H|[H|[H|[]]]]]]]; discriminate.
Defined.

(** ** Search in a text field *)

Lemma plain_cons (c : ascii) (pat : str) :
  plain (c :: pat) = true ->
  Ascii.eqb c "(" = false /\ Ascii.eqb c ")" = false /\
  Ascii.eqb c "." = false /\ beyond_char c = false /\ plain pat = true.
Proof.
  unfold plain at 1. cbn [forallb]. rewrite andb_true_iff, negb_true_iff.
  intros [H Hp]. unfold re_special in H. unfold beyond_char.
  cbn [py list_ascii_of_string existsb] in *.
  repeat (apply orb_false_iff in H as [? H]).
  repeat split; try assumption.
  repeat (apply orb_false_iff; split; try assumption).
Qed.

Lemma re_compile_plain (pat : str) :
  plain pat = true -> re_compile pat = Compiled (map Lit pat).
Proof.
  intros H. unfold re_compile.
  assert (Hb : existsb beyond_char pat = false).
  { induction pat as [|c pat IH]; [reflexivity|].
    apply plain_cons in H as (_ & _ & _ & Hc & Hp).
    simpl. now rewrite Hc, IH. }
  rewrite Hb.
  assert (Hp : parse_items 0 pat = Some (map Lit pat)).
  { induction pat as [|c pat IH]; [reflexivity|].
    apply plain_cons in H as (H1 & H2 & H3 & _ & Hp).
    simpl in Hb. apply orb_false_iff in Hb as [_ Hb].
    cbn [parse_items map]. rewrite H1, H2, H3, IH by assumption.
    reflexivity. }
  now rewrite Hp.
Qed.

Lemma match_here_plain (pat s : str) :
  match_here (map Lit pat) s = startswith (lower pat) (lower s).
Proof.
  revert s; induction pat as [|c pat IH]; intros [|d s]; simpl;
    try reflexivity.
  rewrite IH. f_equal. apply Ascii.eqb_sym.
Qed.

Lemma found_plain (pat s : str) :
  found (map Lit pat) s = contains (lower pat) (lower s).
Proof.
  induction s as [|d s IH].
  - cbn [found lower map contains]. now rewrite match_here_plain.
  - cbn [found]. rewrite match_here_plain, IH. reflexivity.
Qed.

Lemma select_map (keep : WorkingRow -> bool) (df : list WorkingRow) :
  select df (map keep df) = filter keep df.
Proof.
  induction df as [|row df IH]; simpl; [reflexivity|].
  now rewrite IH.
Qed.

(** For a search text without special character the filter keeps, in
    order, the rows whose field contains it, ignoring case. *)
Lemma filter_contains_plain (field : Sections -> str)
  (df_cleaned : list WorkingRow) (pat : str) :
  plain pat = true -> pat <> [] ->
  filter_contains field df_cleaned pat =
  Result (Ret (filter (fun row => contains (lower pat)
                                           (lower (field (sections row))))
                      df_cleaned)).
Proof.
  intros H Hne. unfold filter_contains, str_contains.
  destruct pat as [|c pat]; [congruence|]. cbn [truthy].
  rewrite (re_compile_plain _ H). cbn [bind_outcome].
  rewrite map_map. rewrite <- select_map. do 3 f_equal.
  apply map_ext. intros row. apply found_plain.
Qed.

(** C2, the inputs on which the code leaves the contract. The search
    text is compiled as a regular expression: a dot selects a row whose
    field does not contain a dot, an empty group selects a row whose
    field is empty, and an open parenthesis makes the search raise. *)
Theorem filtered_issue_df_regex :
  contains (lower (py ".")) (lower (py "refund")) = false /\
  filtered_issue_df [row_of (py "refund") []] (py ".")
    = Result (Ret [row_of (py "refund") []]) /\
  filtered_action_df [row_of [] (py "refund")] (py ".")
    = Result (Ret [row_of [] (py "refund")]) /\
  filtered_issue_df [row_of [] []] (py "()") = Result (Ret [row_of [] []]) /\
  (forall df_cleaned,
     filtered_issue_df df_cleaned (py "(") = Result (Raise re_error) /\
     filtered_action_df df_cleaned (py "(") = Result (Raise re_error)).
Proof.
  repeat split; reflexivity.
Qed.

(** ** What a match of the section patterns means *)

Lemma lazy_until_Some (l2 s g : str) :
  lazy_until l2 s = Some g ->
  exists b, s = g ++ l2 ++ b /\
    forall g1 g2, g = g1 ++ g2 -> g2 <> [] ->
      startswith l2 (g2 ++ l2 ++ b) = false.
Proof.
  revert g; induction s as [|c s IH]; intros g H; cbn [lazy_until] in H.
  - destruct (startswith l2 []) eqn:E; [|discriminate].
    injection H as <-. destruct (startswith_inv _ _ E) as [b Hb].
    exists b. split; [exact Hb|].
    intros g1 g2 Hg Hne. destruct g1, g2; try discriminate. congruence.
  - destruct (startswith l2 (c :: s)) eqn:E.
    + injection H as <-. destruct (startswith_inv _ _ E) as [b Hb].
      exists b. split; [exact Hb|].
      intros g1 g2 Hg Hne. destruct g1, g2; try discriminate. congruence.
    + destruct (lazy_until l2 s) as [g'|] eqn:E'; [|discriminate].
      injection H as <-. destruct (IH g' eq_refl) as (b & -> & Hmin).
      exists b. split; [reflexivity|].
      intros [|d g1] g2 Hg Hne.
      * simpl in Hg. subst g2. exact E.
      * injection Hg as -> ->. now apply (Hmin g1 g2).
Qed.

Lemma search_between_Some (l1 l2 s g : str) :
  search_between l1 l2 s = Some g ->
  exists a b, s = a ++ l1 ++ g ++ l2 ++ b /\
    forall g1 g2, g = g1 ++ g2 -> g2 <> [] ->
      startswith l2 (g2 ++ l2 ++ b) = false.
Proof.
  assert (here : forall s, match strip_prefix l1 s with
                      | Some rest => lazy_until l2 rest
                      | None => None
                      end = Some g ->
            exists b, s = [] ++ l1 ++ g ++ l2 ++ b /\
              forall g1 g2, g = g1 ++ g2 -> g2 <> [] ->
                startswith l2 (g2 ++ l2 ++ b) = false).
  { intros t H. destruct (strip_prefix l1 t) as [rest|] eqn:E;
      [|discriminate].
    apply strip_prefix_Some in E. subst t.
    destruct (lazy_until_Some _ _ _ H) as (b & -> & Hmin).
    now exists b. }
  induction s as [|c s IH]; cbn [search_between]; intros H.
  - exists []. apply here.
    destruct (strip_prefix l1 []) as [rest|]; [|discriminate].
    now destruct (lazy_until l2 rest).
  - destruct (strip_prefix l1 (c :: s)) as [rest|] eqn:E.
    + destruct (lazy_until l2 rest) as [g'|] eqn:E'.
      * exists []. apply here. now rewrite E, E'.
      * destruct (IH H) as (a & b & -> & Hmin).
        now exists (c :: a), b.
    + destruct (IH H) as (a & b & -> & Hmin). now exists (c :: a), b.
Qed.

Lemma search_after_Some (l s r : str) :
  search_after l s = Some r -> exists a, s = a ++ l ++ r.
Proof.
  induction s as [|c s IH]; cbn [search_after]; intros H.
  - destruct (strip_prefix l []) as [rest|] eqn:E; [|discriminate].
    injection H as <-. apply strip_prefix_Some in E. now exists [].
  - destruct (strip_prefix l (c :: s)) as [rest|] eqn:E.
    + injection H as <-. apply strip_prefix_Some in E. now exists [].
    + destruct (IH H) as (a & ->). now exists (c :: a).
Qed.

(** The lazy group holds no occurrence of the label that closes it. *)
Lemma lazy_group_count (l2 g b : str) :
  l2 <> [] ->
  (forall g1 g2, g = g1 ++ g2 -> g2 <> [] ->
     startswith l2 (g2 ++ l2 ++ b) = false) ->
  count l2 g = 0.
Proof.
  intros Hl. induction g as [|c g IH]; intros Hmin.
  - destruct l2; [congruence|reflexivity].
  - cbn [count].
    destruct (startswith l2 (c :: g)) eqn:E.
    + apply startswith_weaken with (t := l2 ++ b) in E.
      rewrite (Hmin [] (c :: g) eq_refl) in E by discriminate. discriminate.
    + rewrite IH; [reflexivity|].
      intros g1 g2 -> Hne. now apply (Hmin (c :: g1) g2).
Qed.

Lemma strip_fixed (t : str) :
  t <> [] -> isspace (hd " "%char t) = false ->
  isspace (last t " "%char) = false -> strip t = t.
Proof.
  intros Hne Hh Hl. unfold strip.
  assert (E : lstrip t = t).
  { destruct t as [|c r]; [congruence|]. simpl in *. now rewrite Hh. }
  rewrite E. unfold rstrip.
  destruct (exists_last Hne) as (front & x & ->).
  rewrite last_last in Hl. rewrite rev_unit. cbn [lstrip]. rewrite Hl.
  now rewrite <- rev_unit, rev_involutive.
Qed.

Lemma strip_idempotent (s : str) : strip (strip s) = strip s.
Proof.
  destruct (strip s) as [|c r] eqn:E; [reflexivity|]. rewrite <- E.
  assert (Hne : strip s <> []) by (rewrite E; discriminate).
  apply strip_fixed; [exact Hne|now apply strip_hd|now apply strip_last].
Qed.

Lemma group_or_empty_trimmed (m : option str) :
  strip (group_or_empty m) = group_or_empty m.
Proof.
  destruct m as [g|]; [apply strip_idempotent|reflexivity].
Qed.

Lemma infix_strip (a g b : str) :
  exists x y, a ++ g ++ b = x ++ strip g ++ y.
Proof.
  destruct (strip_infix g) as (x & y & E).
  exists (a ++ x), (y ++ b). rewrite E at 1.
  now rewrite <- !app_assoc.
Qed.

(** X1. On every string [extract_sections] returns, and each of the four
    fields is trimmed (stripping it again changes nothing) and is a
    contiguous part of the input text. *)
Theorem extract_sections_fields_of_text (text : str) :
  exists s,
    extract_sections (Some text) = Ret s /\
    forall i,
      strip (field i s) = field i s /\
      exists x y, text = x ++ field i s ++ y.
Proof.
  eexists. split; [apply extract_sections_text|].
  assert (between : forall l1 l2,
            exists x y,
              text = x ++ group_or_empty (search_between l1 l2 text) ++ y).
  { intros l1 l2. destruct (search_between l1 l2 text) as [g|] eqn:E.
    - destruct (search_between_Some _ _ _ _ E) as (a & b & -> & _).
      cbn [group_or_empty].
      destruct (infix_strip (a ++ l1) g (l2 ++ b)) as (x & y & Hxy).
      exists x, y. rewrite <- Hxy. now rewrite <- !app_assoc.
    - now exists [], text. }
  intros [|[|[|i]]]; cbn [field Customer_Issue Agents_Actions
    Customers_Anxiety Important_Keywords];
    (split; [apply group_or_empty_trimmed|]); try apply between.
  destruct (search_after label_keywords text) as [r|] eqn:E.
  - destruct (search_after_Some _ _ _ E) as (a & ->). cbn [group_or_empty].
    destruct (infix_strip (a ++ label_keywords) r []) as (x & y & Hxy).
    exists x, y. rewrite <- Hxy. now rewrite app_nil_r, <- !app_assoc.
  - now exists [], text.
Qed.

(** X2. Whatever the text, a field of the result never contains the label
    that closes its section: no [Agent's Actions] label in the issue, no
    [Customer's Anxiety] label in the actions, no [Important Keywords]
    label in the anxiety. *)
Theorem extract_sections_closing_label (text : str) :
  exists s,
    extract_sections (Some text) = Ret s /\
    contains label_actions (Customer_Issue s) = false /\
    contains label_anxiety (Agents_Actions s) = false /\
    contains label_keywords (Customers_Anxiety s) = false.
Proof.
  eexists. split; [apply extract_sections_text|].
  assert (closed : forall l1 l2, l2 <> [] ->
            contains l2 (group_or_empty (search_between l1 l2 text))
            = false).
  { intros l1 l2 Hl. apply contains_count.
    destruct (search_between l1 l2 text) as [g|] eqn:E.
    - destruct (search_between_Some _ _ _ _ E) as (a & b & _ & Hmin).
      cbn [group_or_empty]. pose proof (count_strip l2 g Hl).
      pose proof (lazy_group_count l2 g b Hl Hmin). lia.
    - destruct l2; [congruence|reflexivity]. }
  cbn [Customer_Issue Agents_Actions Customers_Anxiety].
  repeat split; apply closed; discriminate.
Qed.

(** ** Sections without a label in front or in the middle *)

(** X3. The fields are searched independently: with the first label
    absent and the other three once each, only the issue is empty; the
    actions, the anxiety and the keywords are still recovered. *)
Theorem extract_sections_without_first_label (pre f2 f3 f4 : str) :
  let text := pre ++ label_actions ++ f2 ++ label_anxiety ++ f3
                  ++ label_keywords ++ f4 in
  count label_issue text = 0 ->
  count label_actions text = 1 ->
  count label_anxiety text = 1 ->
  count label_keywords text = 1 ->
  extract_sections (Some text) =
  Ret {| Customer_Issue := [];
         Agents_Actions := strip f2;
         Customers_Anxiety := strip f3;
         Important_Keywords := strip f4 |}.
Proof.
  intros text H1 H2 H3 H4. rewrite extract_sections_text.
  rewrite (search_between_no_open _ label_actions _ H1).
  unfold text in *.
  rewrite (search_between_once _ _ _ _ _ H2 H3).
  replace (pre ++ label_actions ++ f2 ++ label_anxiety ++ f3
               ++ label_keywords ++ f4)
    with ((pre ++ label_actions ++ f2) ++ label_anxiety ++ f3
               ++ label_keywords ++ f4) in *
    by (rewrite <- !app_assoc; reflexivity).
  rewrite (search_between_once _ _ _ _ _ H3 H4).
  replace ((pre ++ label_actions ++ f2) ++ label_anxiety ++ f3
               ++ label_keywords ++ f4)
    with (((pre ++ label_actions ++ f2) ++ label_anxiety ++ f3)
               ++ label_keywords ++ f4) in *
    by (rewrite <- !app_assoc; reflexivity).
  rewrite (search_after_once _ _ _ H4). reflexivity.
Qed.

Lemma extract_sections_without_first_label_witness :
  extract_sections
    (Some ([] ++ label_actions ++ py " called " ++ label_anxiety
              ++ py " low " ++ label_keywords ++ py "late_delivery")) =
  Ret {| Customer_Issue := [];
         Agents_Actions := strip (py " called ");
         Customers_Anxiety := strip (py " low ");
         Important_Keywords := strip (py "late_delivery") |}.
Proof.
  apply (extract_sections_without_first_label [] (py " called ")
           (py " low ") (py "late_delivery"));
    vm_compute; reflexivity.
Defined.

(** X4. A label missing in the middle empties the two fields around it
    and no other: without the [Customer's Anxiety] label, the actions
    and the anxiety are empty, the issue and the keywords are
    recovered. *)
Theorem extract_sections_without_third_label (pre f1 f2 f4 : str) :
  let text := pre ++ label_issue ++ f1 ++ label_actions ++ f2
                  ++ label_keywords ++ f4 in
  count label_issue text = 1 ->
  count label_actions text = 1 ->
  count label_anxiety text = 0 ->
  count label_keywords text = 1 ->
  extract_sections (Some text) =
  Ret {| Customer_Issue := strip f1;
         Agents_Actions := [];
         Customers_Anxiety := [];
         Important_Keywords := strip f4 |}.
Proof.
  intros text H1 H2 H3 H4. rewrite extract_sections_text.
  rewrite (search_between_no_close label_actions _ _ H3).
  rewrite (search_between_no_open _ label_keywords _ H3).
  unfold text in *.
  rewrite (search_between_once _ _ _ _ _ H1 H2).
  replace (pre ++ label_issue ++ f1 ++ label_actions ++ f2
               ++ label_keywords ++ f4)
    with ((pre ++ label_issue ++ f1 ++ label_actions ++ f2)
               ++ label_keywords ++ f4) in *
    by (rewrite <- !app_assoc; reflexivity).
  rewrite (search_after_once _ _ _ H4). reflexivity.
Qed.

Lemma extract_sections_without_third_label_witness :
  extract_sections
    (Some ([] ++ label_issue ++ py " late " ++ label_actions
              ++ py " called " ++ label_keywords ++ py "late_delivery")) =
  Ret {| Customer_Issue := strip (py " late ");
         Agents_Actions := [];
         Customers_Anxiety := [];
         Important_Keywords := strip (py "late_delivery") |}.
Proof.
  apply (extract_sections_without_third_label [] (py " late ")
           (py " called ") (py "late_delivery"));
    vm_compute; reflexivity.
Defined.

(** ** The batch processor on whole tables *)

Lemma apply_extract_NaN (col : list cell) :
  In None col -> apply_extract col = Raise TypeError.
Proof.
  induction col as [|c col IH]; intros H; [destruct H|].
  destruct c as [text|]; [|reflexivity].
  destruct H as [H|H]; [discriminate|].
  cbn [apply_extract]. rewrite extract_sections_text, (IH H). reflexivity.
Qed.

(** X5. On a table with rows and a text column, one NaN in the text
    column is enough: [load_and_process] raises [TypeError], returns no
    table and logs no message. *)
Theorem load_and_process_NaN (df : DataFrame) (i : nat) (log : list str) :
  empty df = false -> text_column (columns df) = Some i ->
  (exists r, In r (rows df) /\ nth i r None = None) ->
  load_and_process (Parsed df) log = (Raise TypeError, log).
Proof.
  intros He Hi (r & Hr & Hn).
  unfold load_and_process. rewrite He, Hi. unfold bind, lift.
  rewrite apply_extract_NaN; [reflexivity|].
  unfold column. apply in_map_iff. exists r. split; assumption.
Qed.

Lemma load_and_process_NaN_witness :
  load_and_process
    (Parsed {| columns := [py "id"; py "Thread_Text"];
               rows := [[Some (py "1"); Some (py "fine")];
                        [Some (py "2"); None]] |}) []
  = (Raise TypeError, []).
Proof.
  apply (load_and_process_NaN
           {| columns := [py "id"; py "Thread_Text"];
              rows := [[Some (py "1"); Some (py "fine")];
                       [Some (py "2"); None]] |} 1 []).
  - reflexivity.
  - reflexivity.
  - exists [Some (py "2"); None]. split; [simpl; auto|reflexivity].
Defined.

(** X6. On a table with rows and a text column whose cells are all
    strings, [load_and_process] returns, without a message, one row per
    input row and in the same order: row [n] holds the sections of the
    text of input row [n], their keyword list, and the pass-through
    cells of that row. *)
Theorem load_and_process_rows (df : DataFrame) (i : nat)
  (log : list str) :
  empty df = false -> text_column (columns df) = Some i ->
  (forall r, In r (rows df) -> nth i r None <> None) ->
  exists df_cleaned,
    load_and_process (Parsed df) log = (Ret df_cleaned, log) /\
    length df_cleaned = length (rows df) /\
    forall n r, nth_error (rows df) n = Some r ->
      exists s row,
        extract_sections (nth i r None) = Ret s /\
        nth_error df_cleaned n = Some row /\
        sections row = s /\
        Keyword_List row = tokenize (Important_Keywords s) /\
        ASP_slab row = extra df (py "ASP_slab") r /\
        analytic_business_unit row =
          extra df (py "analytic_business_unit") r /\
        vip_flag row = extra df (py "vip_flag") r /\
        sub_sub_issue_type row = extra df (py "sub_sub_issue_type") r.
Proof.
  intros He Hi Hs.
  destruct (load_and_process_row_count df i log He Hi Hs)
    as (df_cleaned & E & L & Hn).
  exists df_cleaned. split; [exact E|]. split; [exact L|].
  intros n r Hr. destruct (Hn n r Hr) as (s & Hs1 & Hs2).
  exists s, (working_row df r s). repeat split; assumption.
Qed.

Lemma load_and_process_rows_witness :
  let df := {| columns := [py "vip_flag"; py "thread_text"];
               rows := [[Some (py "Y"); Some (py "no labels")];
                        [None; Some (py "<b>Important Keywords:</b>a_b")]]
            |} in
  exists df_cleaned,
    load_and_process (Parsed df) [] = (Ret df_cleaned, []) /\
    length df_cleaned = length (rows df) /\
    forall n r, nth_error (rows df) n = Some r ->
      exists s row,
        extract_sections (nth 1 r None) = Ret s /\
        nth_error df_cleaned n = Some row /\
        sections row = s /\
        Keyword_List row = tokenize (Important_Keywords s) /\
        ASP_slab row = extra df (py "ASP_slab") r /\
        analytic_business_unit row =
          extra df (py "analytic_business_unit") r /\
        vip_flag row = extra df (py "vip_flag") r /\
        sub_sub_issue_type row = extra df (py "sub_sub_issue_type") r.
Proof.
  intros df. apply (load_and_process_rows df 1 []).
  - reflexivity.
  - reflexivity.
  - intros r [<-|[<-|[]]]; discriminate.
Defined.

Lemma apply_extract_cases (col : list cell) :
  (exists ss, apply_extract col = Ret ss /\ length ss = length col) \/
  (In None col /\ apply_extract col = Raise TypeError).
Proof.
  induction col as [|c col IH]; [left; now exists []|].
  destruct c as [text|].
  - destruct IH as [(ss & E & L)|[Hin E]].
    + left. cbn [apply_extract]. rewrite extract_sections_text, E.
      eexists. split; [reflexivity|]. simpl. now rewrite L.
    + right. split; [now right|]. apply apply_extract_NaN. now right.
  - right. split; [now left|reflexivity].
Qed.

Lemma empty_rejected (df : DataFrame) :
  empty df = true -> rejected (Parsed df).
Proof.
  unfold empty, rejected.
  destruct (columns df) as [|c cs]; [now right|].
  destruct (rows df); [now left|discriminate].
Qed.

(** X7. The three ways [load_and_process] ends, and no other: a rejected
    file gives the table without rows after exactly one message; a
    table with a NaN in its text column raises [TypeError] with the log
    untouched; any other table gives, with the log untouched, a table
    that is not empty and has as many rows as the input. *)
Theorem load_and_process_outcomes (file : upload) (log : list str) :
  (rejected file /\
   exists msg, load_and_process file log = (Ret [], log ++ [msg])) \/
  (exists df i,
     file = Parsed df /\ text_column (columns df) = Some i /\
     In None (column df i) /\
     load_and_process file log = (Raise TypeError, log)) \/
  (exists df df_cleaned,
     file = Parsed df /\
     load_and_process file log = (Ret df_cleaned, log) /\
     df_cleaned <> [] /\
     length df_cleaned = length (rows df)).
Proof.
  destruct file as [e|df].
  - left. split; [exact I|]. eexists. reflexivity.
  - destruct (empty df) eqn:He.
    + left. split; [now apply empty_rejected|].
      unfold load_and_process. rewrite He. eexists. reflexivity.
    + destruct (text_column (columns df)) as [i|] eqn:Hi.
      * right. destruct (apply_extract_cases (column df i))
          as [(ss & E & L)|[Hin E]].
        -- right. exists df, (assemble df (rows df) ss).
           assert (Hlen : length (assemble df (rows df) ss)
                          = length (rows df)).
           { apply assemble_length. rewrite L. unfold column.
             apply length_map. }
           repeat split; try assumption.
           ++ unfold load_and_process. rewrite He, Hi.
              unfold bind, lift, ret. now rewrite E.
           ++ intros Hnil. rewrite Hnil in Hlen. unfold empty in He.
              destruct (columns df), (rows df); simpl in *; discriminate.
        -- left. exists df, i. repeat split; try assumption.
           unfold load_and_process. rewrite He, Hi.
           unfold bind, lift. now rewrite E.
      * left. split; [now right|].
        unfold load_and_process. rewrite He, Hi. eexists. reflexivity.
Qed.

(** X8. The text column is the first column whose name, in lower case,
    contains [thread_text]: the column found has such a name and no
    column before it has; none is found only when no column has. *)
Theorem text_column_first (cols : list str) :
  match text_column cols with
  | Some i =>
      (exists col, nth_error cols i = Some col /\
                   contains (py "thread_text") (lower col) = true) /\
      forall j c, j < i -> nth_error cols j = Some c ->
                  contains (py "thread_text") (lower c) = false
  | None =>
      forall c, In c cols -> contains (py "thread_text") (lower c) = false
  end.
Proof.
  induction cols as [|col cols IH]; cbn [text_column].
  - intros c [].
  - destruct (contains (py "thread_text") (lower col)) eqn:E.
    + split; [now exists col|]. intros j c Hj. lia.
    + destruct (text_column cols) as [i|]; cbn [option_map].
      * destruct IH as [(c0 & Hc0 & Hc0') Hbefore]. split.
        -- now exists c0.
        -- intros [|j] c Hj Hc; simpl in Hc.
           ++ now injection Hc as <-.
           ++ apply (Hbefore j c); [lia|exact Hc].
      * intros c [<-|Hc]; [exact E|now apply IH].
Qed.

(** ** Pass-through columns *)

Lemma index_of_first (col : str) (cols : list str) :
  match index_of col cols with
  | Some j => nth_error cols j = Some col /\
              forall k, k < j -> nth_error cols k <> Some col
  | None => ~ In col cols
  end.
Proof.
  induction cols as [|c cols IH]; cbn [index_of]; [intros []|].
  destruct (str_eqb col c) eqn:E.
  - apply str_eqb_eq in E; subst c. split; [reflexivity|]. intros k Hk. lia.
  - apply str_eqb_neq in E.
    destruct (index_of col cols) as [j|]; cbn [option_map].
    + destruct IH as [Hj Hbefore]. split; [exact Hj|].
      intros [|k] Hk; simpl; [congruence|]. apply Hbefore. lia.
    + intros [H|H]; [congruence|now apply IH].
Qed.

(** X9. A pass-through cell is the cell of the input row under the
    first column of that name, NaN included, and the empty string when
    the table has no such column. *)
Theorem extra_cell (df : DataFrame) (col : str) (r : list cell) :
  (~ In col (columns df) -> extra df col r = Some []) /\
  (forall j, nth_error (columns df) j = Some col ->
             (forall k, k < j -> nth_error (columns df) k <> Some col) ->
             extra df col r = nth j r None).
Proof.
  unfold extra. pose proof (index_of_first col (columns df)) as H.
  destruct (index_of col (columns df)) as [i|].
  - destruct H as [Hi Hbefore]. split.
    + intros Hnot. exfalso. apply Hnot. eapply nth_error_In; eauto.
    + intros j Hj Hjb.
      destruct (Nat.lt_trichotomy i j) as [Hlt|[->|Hlt]];
        [exfalso; now apply (Hjb i)|reflexivity|
         exfalso; now apply (Hbefore j)].
  - split; [reflexivity|].
    intros j Hj _. exfalso. apply H. eapply nth_error_In; eauto.
Qed.

(** ** The keyword table *)

Lemma keyword_freq_fold_NoDup (df : list WorkingRow) (d : dict) :
  NoDup (map fst d) ->
  NoDup (map fst
    (fold_left (fun d row => fold_left bump (Keyword_List row) d) df d)).
Proof.
  revert d; induction df as [|row df IH]; intros d H; simpl; [exact H|].
  apply IH. now apply fold_bump_NoDup.
Qed.

Lemma keyword_freq_fold_keys (df : list WorkingRow) (d : dict) (k : str) :
  In k (map fst
    (fold_left (fun d row => fold_left bump (Keyword_List row) d) df d)) <->
  In k (map fst d) \/ exists row, In row df /\ In k (Keyword_List row).
Proof.
  revert d; induction df as [|row df IH]; intros d; simpl.
  - split; [auto|]. intros [H|(row & [] & _)]; exact H.
  - rewrite IH, fold_bump_keys. split.
    + intros [[H|H]|(r & Hr & Hk)]; [now left| |].
      * right. exists row. auto.
      * right. exists r. auto.
    + intros [H|(r & [<-|Hr] & Hk)]; [now left; left|now left; right|].
      right. now exists r.
Qed.

(** X10. The dictionary of keywords has one entry per distinct keyword
    of the table, and the value read for any string is the number of
    times it occurs in the keyword lists of all rows (zero for a string
    that is no keyword). *)
Theorem keyword_freq_counts (df_cleaned : list WorkingRow) :
  NoDup (map fst (keyword_freq df_cleaned)) /\
  forall kw,
    dict_get (keyword_freq df_cleaned) kw 0 =
      count_occ str_dec (flat_map Keyword_List df_cleaned) kw /\
    (In kw (map fst (keyword_freq df_cleaned)) <->
     exists row, In row df_cleaned /\ In kw (Keyword_List row)).
Proof.
  unfold keyword_freq. split.
  - apply keyword_freq_fold_NoDup. constructor.
  - intros kw. split.
    + now rewrite keyword_freq_get.
    + rewrite keyword_freq_fold_keys. simpl. tauto.
Qed.

Lemma insert_desc_perm (x : str * nat) (l : list (str * nat)) :
  Permutation (insert_desc x l) (x :: l).
Proof.
  induction l as [|y l IH]; simpl; [reflexivity|].
  destruct (snd x <? snd y); [|reflexivity].
  rewrite IH. apply perm_swap.
Qed.

Lemma sorted_desc_perm (l : list (str * nat)) :
  Permutation (sorted_desc l) l.
Proof.
  induction l as [|x l IH]; simpl; [reflexivity|].
  rewrite insert_desc_perm. now constructor.
Qed.

(** Entries of one count keep their order through the insertion. *)
Lemma insert_desc_stable (c : nat) (x : str * nat)
  (l : list (str * nat)) :
  filter (fun y => snd y =? c) (insert_desc x l) =
  filter (fun y => snd y =? c) (x :: l).
Proof.
  induction l as [|y l IH]; [reflexivity|].
  cbn [insert_desc]. destruct (snd x <? snd y) eqn:E; [|reflexivity].
  apply Nat.ltb_lt in E. cbn [filter] in *. rewrite IH.
  destruct (snd x =? c) eqn:Ex, (snd y =? c) eqn:Ey; try reflexivity.
  apply Nat.eqb_eq in Ex, Ey. lia.
Qed.

Lemma sorted_desc_stable (c : nat) (l : list (str * nat)) :
  filter (fun y => snd y =? c) (sorted_desc l) =
  filter (fun y => snd y =? c) l.
Proof.
  induction l as [|x l IH]; [reflexivity|].
  cbn [sorted_desc]. rewrite insert_desc_stable. cbn [filter].
  now rewrite IH.
Qed.

(** X11. The sorted keyword table holds the entries of the dictionary,
    each once; the counts never increase down the table; entries with
    the same count stay in the order in which the dictionary met their
    keywords. *)
Theorem sorted_keywords_sorted (df_cleaned : list WorkingRow) :
  Permutation (sorted_keywords df_cleaned) (keyword_freq df_cleaned) /\
  descending (sorted_keywords df_cleaned) /\
  forall c,
    filter (fun y => snd y =? c) (sorted_keywords df_cleaned) =
    filter (fun y => snd y =? c) (keyword_freq df_cleaned).
Proof.
  unfold sorted_keywords. split; [apply sorted_desc_perm|].
  split; [apply sorted_desc_descending|].
  intros c. apply sorted_desc_stable.
Qed.

(** X12. The choices of the keyword box are the distinct keywords of
    the table: none twice, every keyword of every row among them, and
    nothing else. *)
Theorem keyword_options_distinct (df_cleaned : list WorkingRow) :
  NoDup (keyword_options df_cleaned) /\
  forall kw,
    In kw (keyword_options df_cleaned) <->
    exists row, In row df_cleaned /\ In kw (Keyword_List row).
Proof.
  unfold keyword_options, sorted_keywords. split.
  - apply (Permutation_NoDup
             (l := map fst (keyword_freq df_cleaned))).
    + apply Permutation_map. symmetry. apply sorted_desc_perm.
    + unfold keyword_freq. apply keyword_freq_fold_NoDup. constructor.
  - intros kw. rewrite sorted_desc_keys. unfold keyword_freq.
    rewrite keyword_freq_fold_keys. simpl. tauto.
Qed.

(** ** Filtering by one keyword *)

Lemma keyword_options_In (df_cleaned : list WorkingRow) (kw : str) :
  In kw (keyword_options df_cleaned) ->
  exists row, In row df_cleaned /\ In kw (Keyword_List row).
Proof.
  unfold keyword_options, sorted_keywords, keyword_freq.
  rewrite sorted_desc_keys, keyword_freq_fold_keys. simpl.
  intros [[]|H]. exact H.
Qed.

(** X13. Filtering by a keyword taken from the box never comes back
    empty, and the rows it returns are the rows of the table whose
    keyword list holds that very keyword. *)
Theorem filtered_df_dropdown_option (df_cleaned : list WorkingRow)
  (selected_keyword : str) :
  In selected_keyword (keyword_options df_cleaned) ->
  filtered_df_dropdown df_cleaned selected_keyword <> [] /\
  forall row,
    In row (filtered_df_dropdown df_cleaned selected_keyword) <->
    In row df_cleaned /\ In selected_keyword (Keyword_List row).
Proof.
  intros H.
  assert (Hrows : forall row,
            In row (filtered_df_dropdown df_cleaned selected_keyword) <->
            In row df_cleaned /\ In selected_keyword (Keyword_List row)).
  { intros row. unfold filtered_df_dropdown.
    now rewrite filter_In, str_in_In. }
  split; [|exact Hrows].
  destruct (keyword_options_In _ _ H) as (row & Hrow & Hkw).
  intros Hnil. assert (Hin : In row []) by (rewrite <- Hnil; now apply Hrows).
  destruct Hin.
Qed.

Lemma filtered_df_dropdown_option_witness :
  let df_cleaned :=
    [working_row {| columns := []; rows := [] |} []
       {| Customer_Issue := []; Agents_Actions := [];
          Customers_Anxiety := [];
          Important_Keywords := py "refund_card" |}] in
  filtered_df_dropdown df_cleaned (py "card") <> [] /\
  forall row,
    In row (filtered_df_dropdown df_cleaned (py "card")) <->
    In row df_cleaned /\ In (py "card") (Keyword_List row).
Proof.
  intros df_cleaned.
  apply (filtered_df_dropdown_option df_cleaned (py "card")).
  vm_compute. auto.
Defined.

(** X14. The search box finds at least what the keyword box finds: for a
    keyword without comma, every row returned by the exact filter is
    returned by the search for that keyword. *)
Theorem filtered_df_dropdown_in_text (df_cleaned : list WorkingRow)
  (kw : str) :
  typed_keyword kw ->
  exists found,
    filtered_df_text df_cleaned kw = Some found /\
    forall row, In row (filtered_df_dropdown df_cleaned kw) ->
                In row found.
Proof.
  intros H. pose proof H as (Hcomma & Hne & Hstrip).
  assert (Hk : search_keywords kw = [lower kw]).
  { change kw with (join "," [kw]) at 1.
    rewrite search_keywords_join; [reflexivity|]. now constructor. }
  unfold filtered_df_text. destruct kw as [|c kw]; [congruence|].
  cbn [truthy]. eexists. split; [reflexivity|].
  intros row Hrow. unfold filtered_df_dropdown in Hrow.
  apply filter_In in Hrow as [Hin Hkw]. apply filter_In. split; [exact Hin|].
  rewrite Hk. unfold any_keyword. cbn [existsb].
  apply orb_true_iff; left. apply str_in_In. apply in_map.
  now apply str_in_In.
Qed.

Lemma filtered_df_dropdown_in_text_witness :
  let df_cleaned :=
    [working_row {| columns := []; rows := [] |} []
       {| Customer_Issue := []; Agents_Actions := [];
          Customers_Anxiety := [];
          Important_Keywords := py "Refund_card" |}] in
  exists found,
    filtered_df_text df_cleaned (py "Refund") = Some found /\
    forall row, In row (filtered_df_dropdown df_cleaned (py "Refund")) ->
                In row found.
Proof.
  intros df_cleaned.
  apply (filtered_df_dropdown_in_text df_cleaned (py "Refund")).
  repeat split; try discriminate.
  intros [H|[H|[H|[H|[H|[H|[]]]]]]]; discriminate.
Defined.

(** ** The top keywords *)

Lemma range_from_In (fuel start stop step i : nat) :
  0 < step -> stop - start <= fuel ->
  (In i (range_from fuel start stop step) <->
   i < stop /\ exists k, i = start + k * step).
Proof.
  intros Hstep. revert start.
  induction fuel as [|fuel IH]; intros start Hfuel; cbn [range_from].
  - split; [intros []|]. intros (Hi & k & ->). lia.
  - destruct (start <? stop) eqn:E.
    + apply Nat.ltb_lt in E. cbn [In]. rewrite IH by lia. split.
      * intros [<-|(Hi & k & ->)].
        -- split; [exact E|]. exists 0. lia.
        -- split; [exact Hi|]. exists (S k). simpl. lia.
      * intros (Hi & [|k] & ->); [left; lia|].
        right. split; [exact Hi|]. exists k. simpl. lia.
    + apply Nat.ltb_ge in E. split; [intros []|].
      intros (Hi & k & ->). lia.
Qed.

Lemma step_options_In (df_cleaned : list WorkingRow) (i : nat) :
  In i (step_options df_cleaned) <->
  (exists k, i = 10 * (k + 1)) /\
  i <= length (keyword_options df_cleaned) /\ i <= 200.
Proof.
  unfold step_options, range, top_keywords_df, keyword_options.
  rewrite length_map.
  rewrite range_from_In by lia. split.
  - intros (Hi & k & ->). split; [exists k; lia|lia].
  - intros ((k & ->) & H1 & H2). split; [lia|]. exists k. lia.
Qed.

(** X15. The choices offered for the number of top keywords are the
    multiples of ten from 10 up to the number of distinct keywords and
    up to 200; with fewer than ten distinct keywords there is no choice
    at all. *)
Theorem step_options_multiples (df_cleaned : list WorkingRow) :
  (forall i,
     In i (step_options df_cleaned) <->
     (exists k, i = 10 * (k + 1)) /\
     i <= length (keyword_options df_cleaned) /\ i <= 200) /\
  (step_options df_cleaned = [] <->
   length (keyword_options df_cleaned) < 10).
Proof.
  split; [apply step_options_In|]. split.
  - intros Hnil.
    destruct (Nat.lt_ge_cases (length (keyword_options df_cleaned)) 10)
      as [H|H]; [exact H|].
    assert (Hin : In 10 (step_options df_cleaned)).
    { apply step_options_In. split; [exists 0; reflexivity|lia]. }
    rewrite Hnil in Hin. destruct Hin.
  - intros Hlt. destruct (step_options df_cleaned) as [|i l] eqn:E;
      [reflexivity|].
    assert (Hin : In i (step_options df_cleaned))
      by (rewrite E; now left).
    apply step_options_In in Hin as ((k & ->) & H1 & _). lia.
Qed.

Lemma descending_app (a b : list (str * nat)) :
  descending (a ++ b) ->
  forall x y, In x a -> In y b -> snd y <= snd x.
Proof.
  induction a as [|z a IH]; intros H x y Hx Hy; [destruct Hx|].
  inversion H as [|? ? Hz Hd]; subst.
  destruct Hx as [<-|Hx].
  - apply Hz. apply in_or_app. now right.
  - now apply (IH Hd x y).
Qed.

Lemma head_top (n : nat) (l : list (str * nat)) :
  descending l ->
  forall x y, In x (head n l) -> In y (skipn n l) -> snd y <= snd x.
Proof.
  intros H. apply descending_app. unfold head.
  now rewrite firstn_skipn.
Qed.

(** X16. For a number taken from the choices, the table of top keywords
    shows exactly that many entries, and no entry left out has a larger
    count than an entry shown. *)
Theorem top_keywords_head (df_cleaned : list WorkingRow) (top_n : nat) :
  In top_n (step_options df_cleaned) ->
  length (head top_n (top_keywords_df df_cleaned)) = top_n /\
  forall x y,
    In x (head top_n (top_keywords_df df_cleaned)) ->
    In y (skipn top_n (top_keywords_df df_cleaned)) ->
    snd y <= snd x.
Proof.
  intros H. apply step_options_In in H as (_ & Hlen & _).
  unfold keyword_options in Hlen. rewrite length_map in Hlen.
  split.
  - unfold head, top_keywords_df. apply firstn_length_le. exact Hlen.
  - apply head_top. apply sorted_desc_descending.
Qed.

(** ** Distribution of a pass-through column *)

(** X17. The distribution of a pass-through column counts every row
    once, NaN under the empty string: the counts add up to the number of
    rows of the table, each value is listed with the number of rows
    holding it, and the twenty entries shown are never smaller than an
    entry left out. *)
Theorem distribution_counts (col : WorkingRow -> cell)
  (df_cleaned : list WorkingRow) :
  list_sum (map snd (distribution col df_cleaned)) = length df_cleaned /\
  (forall v n, In (v, n) (distribution col df_cleaned) ->
     n = count_occ str_dec (fillna_empty (map col df_cleaned)) v /\
     1 <= n) /\
  (forall row, In row df_cleaned ->
     In (match col row with Some s => s | None => [] end)
        (map fst (distribution col df_cleaned))) /\
  length (head 20 (distribution col df_cleaned)) <= 20 /\
  forall x y,
    In x (head 20 (distribution col df_cleaned)) ->
    In y (skipn 20 (distribution col df_cleaned)) ->
    snd y <= snd x.
Proof.
  unfold distribution. repeat split.
  - rewrite value_counts_sum. unfold fillna_empty.
    now rewrite !length_map.
  - now apply value_counts_entries in H.
  - now apply value_counts_entries in H.
  - intros row Hrow. apply value_counts_keys. unfold fillna_empty.
    rewrite map_map.
    apply (in_map (fun r => match col r with Some s => s | None => [] end)).
    exact Hrow.
  - unfold head. apply firstn_le_length.
  - apply head_top. apply sorted_desc_descending.
Qed.

Lemma top_keywords_head_witness :
  let df_cleaned :=
    [working_row {| columns := []; rows := [] |} []
       {| Customer_Issue := []; Agents_Actions := [];
          Customers_Anxiety := [];
          Important_Keywords := py "a_b_c_d_e_f_g_h_i_j_k_a" |}] in
  length (head 10 (top_keywords_df df_cleaned)) = 10 /\
  forall x y,
    In x (head 10 (top_keywords_df df_cleaned)) ->
    In y (skipn 10 (top_keywords_df df_cleaned)) ->
    snd y <= snd x.
Proof.
  intros df_cleaned. apply (top_keywords_head df_cleaned 10).
  vm_compute. auto.
Defined.

(** ** Tokenising and joining *)

Lemma split_app (sep : ascii) (a b : str) :
  split sep (a ++ sep :: b) = split sep a ++ split sep b.
Proof.
  induction a as [|c a IH]; simpl.
  - now rewrite Ascii.eqb_refl.
  - destruct (Ascii.eqb c sep); [now rewrite IH|].
    rewrite IH. pose proof (split_not_nil sep a).
    destruct (split sep a) as [|p ps]; [congruence|reflexivity].
Qed.

Lemma keep_stripped_app (ps qs : list str) :
  keep_stripped (ps ++ qs) = keep_stripped ps ++ keep_stripped qs.
Proof.
  induction ps as [|p ps IH]; simpl; [reflexivity|].
  destruct (truthy (strip p)); simpl; now rewrite IH.
Qed.

Lemma clean_keyword_strip (kw : str) : clean_keyword kw -> strip kw = kw.
Proof.
  intros (Hne & Hh & Hl & _). now apply strip_fixed.
Qed.

Lemma keep_stripped_clean (kws : list str) :
  Forall clean_keyword kws -> keep_stripped kws = kws.
Proof.
  induction 1 as [|kw kws Hkw _ IH]; [reflexivity|].
  simpl. rewrite (clean_keyword_strip kw Hkw), IH.
  destruct Hkw as (Hne & _). destruct kw; [congruence|reflexivity].
Qed.

(** X18. Joining clean keywords with underscores and tokenising the
    result gives the keywords back, in order and with their
    duplicates. *)
Theorem tokenize_join (kws : list str) :
  Forall clean_keyword kws -> tokenize (join "_" kws) = kws.
Proof.
  intros H. unfold tokenize. destruct kws as [|kw kws]; [reflexivity|].
  rewrite split_join.
  - now apply keep_stripped_clean.
  - discriminate.
  - intros p Hp. rewrite Forall_forall in H. now apply H.
Qed.

Lemma tokenize_join_witness :
  tokenize (join "_" [py "refund"; py "card declined"; py "refund"]) =
  [py "refund"; py "card declined"; py "refund"].
Proof.
  apply (tokenize_join [py "refund"; py "card declined"; py "refund"]).
  repeat constructor; try discriminate; vm_compute; intuition discriminate.
Defined.

(** X19. An underscore separates two independent lists: the keywords of
    [a_b] are the keywords of [a] followed by the keywords of [b],
    whatever [a] and [b] are. *)
Theorem tokenize_underscore (a b : str) :
  tokenize (a ++ "_"%char :: b) = tokenize a ++ tokenize b.
Proof.
  unfold tokenize. now rewrite split_app, keep_stripped_app.
Qed.

(** ** Several keywords in the search box *)

Lemma keep_stripped_lower_app (ps qs : list str) :
  keep_stripped_lower (ps ++ qs) =
  keep_stripped_lower ps ++ keep_stripped_lower qs.
Proof.
  induction ps as [|p ps IH]; simpl; [reflexivity|].
  destruct (truthy (strip p)); simpl; now rewrite IH.
Qed.

(** X20. A comma in the search box means "or": the rows found for
    [a,b] are, in the order of the table, the rows that the keywords of
    [a] or the keywords of [b] select. *)
Theorem filtered_df_text_comma (df_cleaned : list WorkingRow)
  (a b : str) :
  filtered_df_text df_cleaned (a ++ ","%char :: b) =
  Some (filter (fun row =>
                  any_keyword (search_keywords a) (Keyword_List row)
                  || any_keyword (search_keywords b) (Keyword_List row))
               df_cleaned).
Proof.
  unfold filtered_df_text.
  assert (Ht : truthy (a ++ ","%char :: b) = true) by now destruct a.
  rewrite Ht. f_equal. apply filter_ext. intros row.
  unfold search_keywords, any_keyword.
  now rewrite split_app, keep_stripped_lower_app, existsb_app.
Qed.

(** ** Plain text in the search boxes *)

Lemma startswith_iff (l s : str) :
  startswith l s = true <-> exists r, s = l ++ r.
Proof.
  split; [apply startswith_inv|]. intros (r & ->). apply startswith_app.
Qed.

Lemma contains_iff (sub s : str) :
  contains sub s = true <-> exists a b, s = a ++ sub ++ b.
Proof.
  induction s as [|c s IH]; cbn [contains].
  - rewrite orb_false_r, startswith_iff. split.
    + intros (r & E). now exists [], r.
    + intros (a & b & E). destruct a; [now exists b|discriminate].
  - rewrite orb_true_iff, startswith_iff, IH. split.
    + intros [(r & E)|(a & b & ->)]; [now exists [], r|].
      now exists (c :: a), b.
    + intros ([|d a] & b & E); [left; now exists b|].
      right. injection E as _ ->. now exists a, b.
Qed.

Lemma contains_ignoring_case (pat s : str) :
  contains (lower pat) (lower s) = true <->
  exists a m b, s = a ++ m ++ b /\ same_ignoring_case pat m.
Proof.
  rewrite contains_iff. unfold lower at 2. split.
  - intros (a' & b' & E).
    apply map_eq_app in E as (a & mb & -> & _ & E).
    apply map_eq_app in E as (m & b & -> & Em & _).
    exists a, m, b. split; [reflexivity|]. apply lower_same.
    symmetry. exact Em.
  - intros (a & m & b & -> & H). apply lower_same in H.
    exists (lower a), (lower b). unfold lower in *.
    now rewrite !map_app, H.
Qed.

(** X21. For a search text that is not empty and has no character with
    a meaning in a pattern, both text searches return, in the order of
    the table, exactly the rows whose field holds a piece equal to the
    search text up to the case of the letters. *)
Theorem text_search_ignoring_case (df_cleaned : list WorkingRow)
  (text_input : str) :
  plain text_input = true -> text_input <> [] ->
  (exists keep,
     filtered_issue_df df_cleaned text_input =
       Result (Ret (filter keep df_cleaned)) /\
     forall row, keep row = true <->
       exists a m b, Customer_Issue (sections row) = a ++ m ++ b /\
                     same_ignoring_case text_input m) /\
  (exists keep,
     filtered_action_df df_cleaned text_input =
       Result (Ret (filter keep df_cleaned)) /\
     forall row, keep row = true <->
       exists a m b, Agents_Actions (sections row) = a ++ m ++ b /\
                     same_ignoring_case text_input m).
Proof.
  intros Hp Hne. split.
  - exists (fun row => contains (lower text_input)
                                (lower (Customer_Issue (sections row)))).
    split; [now apply filter_contains_plain|].
    intros row. apply contains_ignoring_case.
  - exists (fun row => contains (lower text_input)
                                (lower (Agents_Actions (sections row)))).
    split; [now apply filter_contains_plain|].
    intros row. apply contains_ignoring_case.
Qed.

Lemma text_search_ignoring_case_witness :
  let df_cleaned := [row_of (py "Card DECLINED twice") (py "refunded")] in
  (exists keep,
     filtered_issue_df df_cleaned (py "declined") =
       Result (Ret (filter keep df_cleaned)) /\
     forall row, keep row = true <->
       exists a m b, Customer_Issue (sections row) = a ++ m ++ b /\
                     same_ignoring_case (py "declined") m) /\
  (exists keep,
     filtered_action_df df_cleaned (py "declined") =
       Result (Ret (filter keep df_cleaned)) /\
     forall row, keep row = true <->
       exists a m b, Agents_Actions (sections row) = a ++ m ++ b /\
                     same_ignoring_case (py "declined") m).
Proof.
  intros df_cleaned.
  apply (text_search_ignoring_case df_cleaned (py "declined")).
  - reflexivity.
  - discriminate.
Defined.

Lemma parse_items_open (depth : nat) (pat : str) :
  plain pat = true -> parse_items (S depth) pat = None.
Proof.
  induction pat as [|c pat IH]; intros H; [reflexivity|].
  apply plain_cons in H as (H1 & H2 & H3 & _ & Hp).
  cbn [parse_items]. rewrite H1, H2, H3, (IH Hp). reflexivity.
Qed.

(** X22. An open parenthesis followed by plain text is no regular
    expression: on every table both text searches raise [re.error]
    instead of returning rows. *)
Theorem text_search_open_parenthesis (df_cleaned : list WorkingRow)
  (rest : str) :
  plain rest = true ->
  filtered_issue_df df_cleaned ("("%char :: rest) = Result (Raise re_error) /\
  filtered_action_df df_cleaned ("("%char :: rest) = Result (Raise re_error).
Proof.
  intros H.
  assert (E : re_compile ("("%char :: rest) = Invalid).
  { unfold re_compile.
    assert (Hb : existsb beyond_char ("("%char :: rest) = false).
    { cbn [existsb]. pose proof (re_compile_plain rest H) as Hc.
      unfold re_compile in Hc.
      destruct (existsb beyond_char rest); [discriminate|reflexivity]. }
    rewrite Hb. cbn [parse_items]. change (Ascii.eqb "(" "(") with true.
    cbv iota. now rewrite parse_items_open. }
  unfold filtered_issue_df, filtered_action_df, filter_contains,
    str_contains. cbn [truthy]. rewrite E. split; reflexivity.
Qed.

Lemma text_search_open_parenthesis_witness :
  filtered_issue_df [row_of (py "refund") []] ("("%char :: py "refund")
    = Result (Raise re_error) /\
  filtered_action_df [row_of (py "refund") []] ("("%char :: py "refund")
    = Result (Raise re_error).
Proof.
  apply (text_search_open_parenthesis [row_of (py "refund") []]
           (py "refund")).
  reflexivity.
Defined.

(** ** The anxiety table at its edges *)

Lemma value_counts_NoDup (col : list str) :
  NoDup (map fst (value_counts col)).
Proof.
  unfold value_counts.
  apply (Permutation_NoDup (l := map fst (fold_left bump col []))).
  - apply Permutation_map. symmetry. apply sorted_desc_perm.
  - apply fold_bump_NoDup. constructor.
Qed.

(** X23. The anxiety table lists every value once, largest count first,
    with [Total] in the last row; it is reduced to the row [Total] with
    count 0 exactly when every row of the table has a blank anxiety. *)
Theorem anxiety_table_shape (df_cleaned : list WorkingRow) :
  NoDup (map fst (anxiety_counts df_cleaned)) /\
  descending (anxiety_counts df_cleaned) /\
  last (anxiety_df_with_total df_cleaned) ([], 0) =
    (py "Total", list_sum (map snd (anxiety_counts df_cleaned))) /\
  (anxiety_df_with_total df_cleaned = [(py "Total", 0)] <->
   forall row, In row df_cleaned ->
               blank (Customers_Anxiety (sections row)) = true).
Proof.
  split; [apply value_counts_NoDup|].
  split; [apply sorted_desc_descending|].
  split; [unfold anxiety_df_with_total; apply last_last|].
  unfold anxiety_df_with_total.
  assert (Hkeys : forall v,
            In v (map fst (anxiety_counts df_cleaned)) <->
            exists row, In row df_cleaned /\
                        Customers_Anxiety (sections row) = v /\
                        blank v = false).
  { intros v. unfold anxiety_counts.
    rewrite <- (map_map (fun row => Customers_Anxiety (sections row)) Some).
    rewrite dropna_Some, value_counts_keys, filter_In, in_map_iff.
    rewrite not_blank, negb_true_iff. split.
    - intros ((row & E & Hrow) & Hb). now exists row.
    - intros (row & Hrow & E & Hb). split; [now exists row|exact Hb]. }
  split.
  - intros E row Hrow.
    destruct (blank (Customers_Anxiety (sections row))) eqn:Hb;
      [reflexivity|].
    assert (Hin : In (Customers_Anxiety (sections row))
                     (map fst (anxiety_counts df_cleaned)))
      by (apply Hkeys; now exists row).
    destruct (anxiety_counts df_cleaned) as [|e es]; [destruct Hin|].
    destruct es; discriminate.
  - intros Hall.
    destruct (anxiety_counts df_cleaned) as [|[v n] es] eqn:E;
      [reflexivity|].
    assert (Hin : In v (map fst ((v, n) :: es))) by now left.
    apply Hkeys in Hin as (row & Hrow & <- & Hb).
    rewrite (Hall row Hrow) in Hb. discriminate.
Qed.

(** ** From the cell to the keyword list *)

Lemma lstrip_blank_app (w t : str) :
  blank w = true -> lstrip (w ++ t) = lstrip t.
Proof.
  induction w as [|c w IH]; simpl; [reflexivity|].
  intros H. apply andb_true_iff in H as [Hc Hw]. rewrite Hc. now apply IH.
Qed.

Lemma blank_rev (w : str) : blank w = true -> blank (rev w) = true.
Proof.
  unfold blank. rewrite !forallb_forall. intros H c Hc.
  apply H. now apply in_rev.
Qed.

Lemma rstrip_app_blank (t w : str) :
  blank w = true -> rstrip (t ++ w) = rstrip t.
Proof.
  intros H. unfold rstrip. rewrite rev_app_distr.
  now rewrite lstrip_blank_app by now apply blank_rev.
Qed.

Lemma last_app_cons (a b : str) (c d : ascii) :
  last (a ++ c :: b) d = last (c :: b) d.
Proof.
  induction a as [|x a IH]; [reflexivity|].
  rewrite <- IH.
  change ((x :: a) ++ c :: b) with (x :: (a ++ c :: b)).
  destruct (a ++ c :: b) eqn:E; [now destruct a|reflexivity].
Qed.

Lemma join_clean_ends (kws : list str) :
  Forall clean_keyword kws -> kws <> [] ->
  join "_" kws <> [] /\
  isspace (hd " "%char (join "_" kws)) = false /\
  isspace (last (join "_" kws) " "%char) = false.
Proof.
  induction 1 as [|kw kws (Hne & Hh & Hl & _) Hrest IH]; [congruence|].
  intros _. destruct kws as [|k2 kws]; [now simpl|].
  change (join "_" (kw :: k2 :: kws))
    with (kw ++ "_"%char :: join "_" (k2 :: kws)).
  destruct IH as (Hj & _ & Hjl); [discriminate|].
  destruct kw as [|c kw]; [congruence|]. repeat split.
  - discriminate.
  - exact Hh.
  - rewrite last_app_cons.
    destruct (join "_" (k2 :: kws)) as [|x m]; [congruence|exact Hjl].
Qed.

Lemma strip_padded_join (ws1 ws2 : str) (kws : list str) :
  blank ws1 = true -> blank ws2 = true -> Forall clean_keyword kws ->
  strip (ws1 ++ join "_" kws ++ ws2) = join "_" kws.
Proof.
  intros H1 H2 Hk. unfold strip. rewrite lstrip_blank_app by assumption.
  destruct kws as [|kw kws].
  - simpl join. simpl app.
    assert (E : lstrip ws2 = []) by now apply lstrip_nil.
    now rewrite E.
  - destruct (join_clean_ends (kw :: kws) Hk) as (Hne & Hh & Hl);
      [discriminate|].
    assert (E : lstrip (join "_" (kw :: kws) ++ ws2)
                = join "_" (kw :: kws) ++ ws2).
    { destruct (join "_" (kw :: kws)) as [|c m]; [congruence|].
      simpl in *. now rewrite Hh. }
    rewrite E, rstrip_app_blank by assumption.
    pose proof (strip_fixed _ Hne Hh Hl) as Hs. unfold strip in Hs.
    assert (E' : lstrip (join "_" (kw :: kws)) = join "_" (kw :: kws)).
    { destruct (join "_" (kw :: kws)) as [|c m]; [congruence|].
      simpl in *. now rewrite Hh. }
    now rewrite E' in Hs.
Qed.

(** X24. Clean keywords written after the [Important Keywords] label,
    joined by underscores and padded with any white space, come back as
    the keyword list of the row, whatever precedes the label, provided
    the label occurs once in the text. *)
Theorem keywords_of_cell (before ws1 ws2 : str) (kws : list str) :
  let text := before ++ label_keywords ++ ws1 ++ join "_" kws ++ ws2 in
  count label_keywords text = 1 ->
  blank ws1 = true -> blank ws2 = true -> Forall clean_keyword kws ->
  exists s,
    extract_sections (Some text) = Ret s /\
    tokenize (Important_Keywords s) = kws.
Proof.
  intros text Hc H1 H2 Hk. eexists.
  split; [apply extract_sections_text|].
  cbn [Important_Keywords]. unfold text in *.
  rewrite (search_after_once _ _ _ Hc). cbn [group_or_empty].
  rewrite strip_padded_join by assumption.
  unfold tokenize. destruct kws as [|kw kws]; [reflexivity|].
  rewrite split_join.
  - now apply keep_stripped_clean.
  - discriminate.
  - intros p Hp. rewrite Forall_forall in Hk. now apply Hk.
Qed.

Lemma keywords_of_cell_witness :
  exists s,
    extract_sections
      (Some (py "seen before" ++ label_keywords ++ py " "
               ++ join "_" [py "refund"; py "card"] ++ py "  ")) = Ret s /\
    tokenize (Important_Keywords s) = [py "refund"; py "card"].
Proof.
  apply (keywords_of_cell (py "seen before") (py " ") (py "  ")
           [py "refund"; py "card"]).
  - vm_compute. reflexivity.
  - reflexivity.
  - reflexivity.
  - repeat constructor; try discriminate; vm_compute; intuition discriminate.
Defined.

(** ** The page *)

Lemma load_and_process_table (file : upload) (log log' : list str)
  (df_cleaned : list WorkingRow) :
  load_and_process file log = (Ret df_cleaned, log') ->
  df_cleaned <> [] ->
  log' = log /\
  exists df, file = Parsed df /\ length df_cleaned = length (rows df).
Proof.
  destruct file as [e|df]; unfold load_and_process.
  - intros [= <- _] H. congruence.
  - destruct (empty df); [intros [= <- _] H; congruence|].
    destruct (text_column (columns df)) as [i|];
      [|intros [= <- _] H; congruence].
    unfold bind, lift, ret.
    destruct (apply_extract_cases (column df i)) as [(ss & E & L)|[_ E]];
      rewrite E; [|discriminate].
    intros [= <- <-] _. split; [reflexivity|]. exists df.
    split; [reflexivity|]. apply assemble_length. rewrite L.
    unfold column. apply length_map.
Qed.

(** X25. When the main logic shows a page, no error message was logged,
    the table shown is not empty and has one row per row of the parsed
    file, and the keyword and anxiety tables of the page are those of
    the table shown. *)
Theorem main_page (file : upload) (log log' : list str) (page : Page) :
  main (Some file) log = (Ret (Some page), log') ->
  log' = log /\
  shown_rows page <> [] /\
  (exists df, file = Parsed df /\
              length (shown_rows page) = length (rows df)) /\
  shown_keywords page = sorted_keywords (shown_rows page) /\
  shown_anxiety page = anxiety_df_with_total (shown_rows page).
Proof.
  unfold main, bind.
  destruct (load_and_process file log) as [[df_cleaned|e] l] eqn:E;
    [|discriminate].
  destruct df_cleaned as [|row df_cleaned]; unfold ret; [discriminate|].
  intros [= <- <-]. cbn [shown_rows shown_keywords shown_anxiety].
  destruct (load_and_process_table _ _ _ _ E) as (Hl & Hdf);
    [discriminate|].
  repeat split; try assumption; try reflexivity. discriminate.
Qed.

Lemma main_page_witness :
  let file :=
    Parsed {| columns := [py "thread_text"];
              rows := [[Some (py "<b>Important Keywords:</b> refund")]] |} in
  let page :=
    match fst (main (Some file) []) with
    | Ret (Some p) => p
    | _ => {| shown_keywords := []; shown_anxiety := []; shown_rows := [] |}
    end in
  @nil str = [] /\
  shown_rows page <> [] /\
  (exists df, file = Parsed df /\
              length (shown_rows page) = length (rows df)) /\
  shown_keywords page = sorted_keywords (shown_rows page) /\
  shown_anxiety page = anxiety_df_with_total (shown_rows page).
Proof.
  intros file page.
  apply (main_page file [] [] page).
  vm_compute. reflexivity.
Defined.
